(** * eventdistributor: a reference-counted broadcast buffer

    Shallow embedding of [distributor.go] (the [Distributor]/[Reader] pair and
    the older [EventDistributor]/[EventReader] pair) and of the option
    builders, followed by the properties proved about them.

    Conventions of the embedding:
    - [int64] values are integers in [Z]; every [+], [-], [+=] and [-=] on
      them is followed by [wrap64], the two's-complement wrap-around.  [int]
      is taken to be 64 bits wide, so [int(x)] of an [int64] is the identity.
    - a slice is a [list]; [len] is its length as an integer.  A [nil] slice
      and an empty slice are both the empty list (the code only ever asks for
      their length).
    - the mutex is not modelled: every operation holds it from start to end,
      so operations are atomic state transformers.
    - channels live in a small heap: a channel is its index in the list of
      "closed" flags.
    - a callback is an opaque identifier; calling it appends an entry to the
      log of calls kept in the world. *)

From Stdlib Require Import ZArith Lia List Bool.
From stdpp Require Import base list.

Local Open Scope Z_scope.

(** ** Machine integers *)

Definition wrap64 (z : Z) : Z := (z + 2 ^ 63) mod 2 ^ 64 - 2 ^ 63.

Definition add64 (a b : Z) : Z := wrap64 (a + b).
Definition sub64 (a b : Z) : Z := wrap64 (a - b).

Definition int64_range (z : Z) : Prop := - 2 ^ 63 <= z < 2 ^ 63.

(** [len(s)] *)
Definition len {A : Type} (s : list A) : Z := Z.of_nat (length s).

(** [s[i]] for a signed index: [None] stands for the index-out-of-range
    panic. *)
Definition index {A : Type} (s : list A) (i : Z) : option A :=
  if i <? 0 then None else s !! Z.to_nat i.

(** ** Channels and callbacks *)

Definition chan : Type := nat.
Definition callback : Type := nat.

(** The package-level [closedChannel]: allocated and closed when the package
    is initialised, hence the first channel of the heap. *)
Definition closedChannel : chan := 0%nat.

(** [close(c)] *)
Definition close (c : chan) (chans : list bool) : list bool := <[c := true]> chans.

(** whether a receive on [c] succeeds at once, as the tests' [select] probes *)
Definition is_closed (chans : list bool) (c : chan) : bool :=
  match chans !! c with Some b => b | None => false end.

Section Model.

Context {T : Type}.

(** ** Data *)

Record eventInfo : Type := mkEventInfo { refcount : Z; value : T }.

Record Distributor : Type := mkDistributor {
  basePosition : Z;
  buf : list eventInfo;
  nextRefcount : Z;
  waiters : option chan;
  onBufsizeChange : list callback;
  onSubmit : list callback;
  onFullyConsumed : list callback
}.

(** The pointer a [Reader] holds.  A world has one [Distributor], so a
    pointer is either [nil] or points to it. *)
Inductive DistributorPtr : Type := Nil | Ptr.

Record Reader : Type := mkReader { d : DistributorPtr; position : Z }.

(** One entry per call of a registered callback, tagged with the list the
    callback was taken from. *)
Inductive Call : Type :=
| CallBufsizeChange (f : callback) (size : Z)
| CallSubmit (f : callback) (item : T)
| CallFullyConsumed (f : callback) (item : T).

Record World : Type := mkWorld {
  dist : Distributor;
  chans : list bool;
  calls : list Call
}.

(** What a call that may panic leaves behind: the result and the world, or
    the world as it was when the panic was raised. *)
Inductive outcome (A : Type) : Type :=
| Done (a : A) (w : World)
| Panic (w : World).
Arguments Done {A} a w.
Arguments Panic {A} w.

(** ** Field updates *)

Definition with_refcount (e : eventInfo) (n : Z) : eventInfo :=
  mkEventInfo n (value e).

Definition with_basePosition (ds : Distributor) (n : Z) : Distributor :=
  mkDistributor n (buf ds) (nextRefcount ds) (waiters ds)
    (onBufsizeChange ds) (onSubmit ds) (onFullyConsumed ds).

Definition with_buf (ds : Distributor) (b : list eventInfo) : Distributor :=
  mkDistributor (basePosition ds) b (nextRefcount ds) (waiters ds)
    (onBufsizeChange ds) (onSubmit ds) (onFullyConsumed ds).

Definition with_nextRefcount (ds : Distributor) (n : Z) : Distributor :=
  mkDistributor (basePosition ds) (buf ds) n (waiters ds)
    (onBufsizeChange ds) (onSubmit ds) (onFullyConsumed ds).

Definition with_waiters (ds : Distributor) (c : option chan) : Distributor :=
  mkDistributor (basePosition ds) (buf ds) (nextRefcount ds) c
    (onBufsizeChange ds) (onSubmit ds) (onFullyConsumed ds).

Definition with_onBufsizeChange (ds : Distributor) (fs : list callback) : Distributor :=
  mkDistributor (basePosition ds) (buf ds) (nextRefcount ds) (waiters ds)
    fs (onSubmit ds) (onFullyConsumed ds).

Definition with_onSubmit (ds : Distributor) (fs : list callback) : Distributor :=
  mkDistributor (basePosition ds) (buf ds) (nextRefcount ds) (waiters ds)
    (onBufsizeChange ds) fs (onFullyConsumed ds).

Definition with_onFullyConsumed (ds : Distributor) (fs : list callback) : Distributor :=
  mkDistributor (basePosition ds) (buf ds) (nextRefcount ds) (waiters ds)
    (onBufsizeChange ds) (onSubmit ds) fs.

Definition with_dist (w : World) (ds : Distributor) : World :=
  mkWorld ds (chans w) (calls w).

Definition with_chans (w : World) (cs : list bool) : World :=
  mkWorld (dist w) cs (calls w).

Definition with_calls (w : World) (cl : list Call) : World :=
  mkWorld (dist w) (chans w) cl.

(** [s[i].refcount += delta] on a valid index *)
Definition bump (s : list eventInfo) (i : Z) (delta : Z) : list eventInfo :=
  match index s i with
  | Some e => <[Z.to_nat i := with_refcount e (add64 (refcount e) delta)]> s
  | None => s
  end.

(** ** Options (the builder of the callback lists)

    [modify] is a list of closures over [*Distributor].  The field is not
    exported, so the only closures it can hold are the three that the methods
    below create; each is represented by a constructor that carries the
    captured callback, and [apply_modifier] is the body of the closure. *)

Inductive modifier : Type :=
| AppendOnBufsizeChange (cb : callback)
| AppendOnSubmit (cb : callback)
| AppendOnFullyConsumed (cb : callback).

Definition apply_modifier (f : modifier) (ds : Distributor) : Distributor :=
  match f with
  | AppendOnBufsizeChange cb => with_onBufsizeChange ds (onBufsizeChange ds ++ [cb])
  | AppendOnSubmit cb => with_onSubmit ds (onSubmit ds ++ [cb])
  | AppendOnFullyConsumed cb => with_onFullyConsumed ds (onFullyConsumed ds ++ [cb])
  end.

Record Options : Type := mkOptions { modify : list modifier }.

Definition OnBufsizeChange (o : Options) (cb : callback) : Options :=
  mkOptions (modify o ++ [AppendOnBufsizeChange cb]).

Definition OnSubmit (o : Options) (cb : callback) : Options :=
  mkOptions (modify o ++ [AppendOnSubmit cb]).

Definition OnFullyConsumed (o : Options) (cb : callback) : Options :=
  mkOptions (modify o ++ [AppendOnFullyConsumed cb]).

(** ** The primary variant: Distributor and Reader *)

Definition New (options : list Options) : Distributor :=
  fold_left (fun ds os => fold_left (fun ds f => apply_modifier f ds) (modify os) ds)
    options
    (mkDistributor 0 [] 0 None [] [] []).

(** [runCallbacks]: the callbacks are called in list order, each call is
    logged. *)
Definition runCallbacks {V : Type} (mk : callback -> V -> Call)
    (fs : list callback) (v : V) (w : World) : World :=
  fold_left (fun w f => with_calls w (calls w ++ [mk f v])) fs w.

(** The loop of [cleanupOldEvents]; [rest] is [d.buf[firstNonEmpty:]]. *)
Fixpoint cleanupLoop (rest : list eventInfo) (firstNonEmpty : nat) (w : World)
    : nat * World :=
  match rest with
  | [] => (firstNonEmpty, w)
  | e :: rest' =>
      if negb (refcount e =? 0) then (firstNonEmpty, w)
      else cleanupLoop rest' (S firstNonEmpty)
             (runCallbacks CallFullyConsumed (onFullyConsumed (dist w)) (value e) w)
  end.

Definition cleanupOldEvents (w : World) : World :=
  if len (buf (dist w)) =? 0 then w
  else
    let '(firstNonEmpty, w1) := cleanupLoop (buf (dist w)) 0 w in
    if Z.of_nat firstNonEmpty =? 0 then w1
    else
      let ds1 := dist w1 in
      let ds2 :=
        if Z.of_nat firstNonEmpty =? len (buf ds1) then with_buf ds1 []
        else with_buf ds1 (drop firstNonEmpty (buf ds1)) in
      let ds3 :=
        with_basePosition ds2 (add64 (basePosition ds2) (Z.of_nat firstNonEmpty)) in
      let w2 := with_dist w1 ds3 in
      runCallbacks CallBufsizeChange (onBufsizeChange ds3) (len (buf ds3)) w2.

Definition Submit (item : T) (w : World) : World :=
  let w1 := runCallbacks CallSubmit (onSubmit (dist w)) item w in
  let ds := dist w1 in
  if (len (buf ds) =? 0) && (nextRefcount ds =? 0) then
    runCallbacks CallFullyConsumed (onFullyConsumed ds) item w1
  else
    let ds1 := with_buf ds (buf ds ++ [mkEventInfo (nextRefcount ds) item]) in
    let ds2 := with_nextRefcount ds1 0 in
    let w2 :=
      match waiters ds2 with
      | Some c => with_chans (with_dist w1 (with_waiters ds2 None)) (close c (chans w1))
      | None => with_dist w1 ds2
      end in
    runCallbacks CallBufsizeChange (onBufsizeChange (dist w2)) (len (buf (dist w2))) w2.

Definition Subscribe (w : World) : Reader * World :=
  let ds := with_nextRefcount (dist w) (add64 (nextRefcount (dist w)) 1) in
  (mkReader Ptr (add64 (basePosition ds) (len (buf ds))), with_dist w ds).

Definition WaitChan (r : Reader) (w : World) : outcome chan :=
  match d r with
  | Nil => Panic w
  | Ptr =>
      let ds := dist w in
      if sub64 (position r) (basePosition ds) <? len (buf ds) then
        Done closedChannel w
      else
        match waiters ds with
        | Some c => Done c w
        | None =>
            let c := length (chans w) in
            Done c (with_chans (with_dist w (with_waiters ds (Some c)))
                      (chans w ++ [false]))
        end
  end.

(** The receiver is a pointer: the updated [Reader] is returned next to the
    result.  In [idx+1] no wrap-around is written: at that point
    [idx < len(buf)], and a slice length fits an [int]. *)
Definition Consume (r : Reader) (w : World) : outcome (T * Reader) :=
  match d r with
  | Nil => Panic w
  | Ptr =>
      let ds := dist w in
      let idx := sub64 (position r) (basePosition ds) in
      match index (buf ds) idx with
      | None => Panic w
      | Some e =>
          let item := value e in
          let ds1 := with_buf ds (bump (buf ds) idx (-1)) in
          let r1 := mkReader (d r) (add64 (position r) 1) in
          let ds2 :=
            if idx + 1 <? len (buf ds1) then
              with_buf ds1 (bump (buf ds1) (idx + 1) 1)
            else
              with_nextRefcount ds1 (add64 (nextRefcount ds1) 1) in
          Done (item, r1) (cleanupOldEvents (with_dist w ds2))
      end
  end.

Definition Unsubscribe (r : Reader) (w : World) : outcome Reader :=
  match d r with
  | Nil => Panic w
  | Ptr =>
      let ds := dist w in
      let idx := sub64 (position r) (basePosition ds) in
      if idx <? len (buf ds) then
        match index (buf ds) idx with
        | None => Panic w
        | Some _ =>
            let w1 := with_dist w (with_buf ds (bump (buf ds) idx (-1))) in
            let w2 := if idx =? 0 then cleanupOldEvents w1 else w1 in
            Done (mkReader Nil (position r)) w2
        end
      else
        Done (mkReader Nil (position r))
          (with_dist w (with_nextRefcount ds (add64 (nextRefcount ds) (-1))))
  end.

(** ** The older variant: EventDistributor and EventReader

    The declarations of [EventDistributor], [EventReader], [eventInfo],
    [runCallbacks] and [closedChannel] in the older package are, field for
    field and line for line, those of the primary one; the older types are
    therefore the same records, and only the methods are embedded again. *)

Definition EventDistributor : Type := Distributor.
Definition EventReader : Type := Reader.
Definition DistributorOptions : Type := Options.

Fixpoint EventDistributor_cleanupLoop (rest : list eventInfo) (firstNonEmpty : nat)
    (w : World) : nat * World :=
  match rest with
  | [] => (firstNonEmpty, w)
  | e :: rest' =>
      if negb (refcount e =? 0) then (firstNonEmpty, w)
      else EventDistributor_cleanupLoop rest' (S firstNonEmpty)
             (runCallbacks CallFullyConsumed (onFullyConsumed (dist w)) (value e) w)
  end.

Definition EventDistributor_cleanupOldEvents (w : World) : World :=
  if len (buf (dist w)) =? 0 then w
  else
    let '(firstNonEmpty, w1) := EventDistributor_cleanupLoop (buf (dist w)) 0 w in
    if Z.of_nat firstNonEmpty =? 0 then w1
    else
      let ds1 := dist w1 in
      let ds2 :=
        if Z.of_nat firstNonEmpty =? len (buf ds1) then with_buf ds1 []
        else with_buf ds1 (drop firstNonEmpty (buf ds1)) in
      let ds3 :=
        with_basePosition ds2 (add64 (basePosition ds2) (Z.of_nat firstNonEmpty)) in
      let w2 := with_dist w1 ds3 in
      runCallbacks CallBufsizeChange (onBufsizeChange ds3) (len (buf ds3)) w2.

Definition NewEventDistributor (options : list DistributorOptions) : EventDistributor :=
  fold_left (fun ds os => fold_left (fun ds f => apply_modifier f ds) (modify os) ds)
    options
    (mkDistributor 0 [] 0 None [] [] []).

Definition EventDistributor_Submit (item : T) (w : World) : World :=
  let w1 := runCallbacks CallSubmit (onSubmit (dist w)) item w in
  let ds := dist w1 in
  if (len (buf ds) =? 0) && (nextRefcount ds =? 0) then
    runCallbacks CallFullyConsumed (onFullyConsumed ds) item w1
  else
    let ds1 := with_buf ds (buf ds ++ [mkEventInfo (nextRefcount ds) item]) in
    let ds2 := with_nextRefcount ds1 0 in
    let w2 :=
      match waiters ds2 with
      | Some c => with_chans (with_dist w1 (with_waiters ds2 None)) (close c (chans w1))
      | None => with_dist w1 ds2
      end in
    runCallbacks CallBufsizeChange (onBufsizeChange (dist w2)) (len (buf (dist w2))) w2.

Definition EventDistributor_Subscribe (w : World) : EventReader * World :=
  let ds := with_nextRefcount (dist w) (add64 (nextRefcount (dist w)) 1) in
  (mkReader Ptr (add64 (basePosition ds) (len (buf ds))), with_dist w ds).

Definition EventReader_WaitChan (r : EventReader) (w : World) : outcome chan :=
  match d r with
  | Nil => Panic w
  | Ptr =>
      let ds := dist w in
      if sub64 (position r) (basePosition ds) <? len (buf ds) then
        Done closedChannel w
      else
        match waiters ds with
        | Some c => Done c w
        | None =>
            let c := length (chans w) in
            Done c (with_chans (with_dist w (with_waiters ds (Some c)))
                      (chans w ++ [false]))
        end
  end.

(** No statement of this method writes [r.position]. *)
Definition EventReader_Consume (r : EventReader) (w : World)
    : outcome (T * EventReader) :=
  match d r with
  | Nil => Panic w
  | Ptr =>
      let ds := dist w in
      let idx := sub64 (position r) (basePosition ds) in
      match index (buf ds) idx with
      | None => Panic w
      | Some e =>
          let item := value e in
          let ds1 := with_buf ds (bump (buf ds) idx (-1)) in
          let ds2 :=
            if idx + 1 <? len (buf ds1) then
              with_buf ds1 (bump (buf ds1) (idx + 1) 1)
            else
              with_nextRefcount ds1 (add64 (nextRefcount ds1) 1) in
          Done (item, r) (EventDistributor_cleanupOldEvents (with_dist w ds2))
      end
  end.

Definition EventReader_Unsubscribe (r : EventReader) (w : World)
    : outcome EventReader :=
  match d r with
  | Nil => Panic w
  | Ptr =>
      let ds := dist w in
      let idx := sub64 (position r) (basePosition ds) in
      if idx <? len (buf ds) then
        match index (buf ds) idx with
        | None => Panic w
        | Some _ =>
            let w1 := with_dist w (with_buf ds (bump (buf ds) idx (-1))) in
            let w2 := if idx =? 0 then EventDistributor_cleanupOldEvents w1 else w1 in
            Done (mkReader Nil (position r)) w2
        end
      else
        Done (mkReader Nil (position r))
          (with_dist w (with_nextRefcount ds (add64 (nextRefcount ds) (-1))))
  end.

(** ** A client program: one Distributor and the Reader handles obtained so far

    A program is a sequence of calls.  The handles returned by [Subscribe]
    are kept in a table, and a call on a Reader names its handle by its index
    there; every handle is a variable of its own (a [Reader] value is not
    copied).  A call that panics ends the program. *)

Record System : Type := mkSystem { world : World; readers : list Reader }.

Inductive Op : Type :=
| OpSubmit (item : T)
| OpSubscribe
| OpWaitChan (i : nat)
| OpConsume (i : nat)
| OpUnsubscribe (i : nat).

Inductive Ret : Type :=
| RetNone
| RetReader (i : nat)
| RetChan (c : chan)
| RetItem (item : T).

Definition step (s : System) (op : Op) : option (Ret * System) :=
  match op with
  | OpSubmit item => Some (RetNone, mkSystem (Submit item (world s)) (readers s))
  | OpSubscribe =>
      let '(r, w) := Subscribe (world s) in
      Some (RetReader (length (readers s)), mkSystem w (readers s ++ [r]))
  | OpWaitChan i =>
      match readers s !! i with
      | Some r =>
          match WaitChan r (world s) with
          | Done c w => Some (RetChan c, mkSystem w (readers s))
          | Panic _ => None
          end
      | None => None
      end
  | OpConsume i =>
      match readers s !! i with
      | Some r =>
          match Consume r (world s) with
          | Done (item, r1) w => Some (RetItem item, mkSystem w (<[i := r1]> (readers s)))
          | Panic _ => None
          end
      | None => None
      end
  | OpUnsubscribe i =>
      match readers s !! i with
      | Some r =>
          match Unsubscribe r (world s) with
          | Done r1 w => Some (RetNone, mkSystem w (<[i := r1]> (readers s)))
          | Panic _ => None
          end
      | None => None
      end
  end.

(** Running a program; [None] when a call panics or names no handle. *)
Fixpoint exec (s : System) (ops : list Op) : option System :=
  match ops with
  | [] => Some s
  | op :: ops' =>
      match step s op with
      | Some (_, s1) => exec s1 ops'
      | None => None
      end
  end.

Definition init (options : list Options) : System :=
  mkSystem (mkWorld (New options) [true] []) [].

(** The same for the older variant. *)
Definition EventDistributor_step (s : System) (op : Op) : option (Ret * System) :=
  match op with
  | OpSubmit item =>
      Some (RetNone, mkSystem (EventDistributor_Submit item (world s)) (readers s))
  | OpSubscribe =>
      let '(r, w) := EventDistributor_Subscribe (world s) in
      Some (RetReader (length (readers s)), mkSystem w (readers s ++ [r]))
  | OpWaitChan i =>
      match readers s !! i with
      | Some r =>
          match EventReader_WaitChan r (world s) with
          | Done c w => Some (RetChan c, mkSystem w (readers s))
          | Panic _ => None
          end
      | None => None
      end
  | OpConsume i =>
      match readers s !! i with
      | Some r =>
          match EventReader_Consume r (world s) with
          | Done (item, r1) w => Some (RetItem item, mkSystem w (<[i := r1]> (readers s)))
          | Panic _ => None
          end
      | None => None
      end
  | OpUnsubscribe i =>
      match readers s !! i with
      | Some r =>
          match EventReader_Unsubscribe r (world s) with
          | Done r1 w => Some (RetNone, mkSystem w (<[i := r1]> (readers s)))
          | Panic _ => None
          end
      | None => None
      end
  end.

(** ** Notions used by the statements *)

(** The log entries of one [runCallbacks] pass. *)
Definition pass {V : Type} (mk : callback -> V -> Call) (fs : list callback) (v : V)
    : list Call :=
  map (fun f => mk f v) fs.

(** The log entries of reporting each of [es] fully consumed, in order. *)
Definition fired (fs : list callback) (items : list T) : list Call :=
  flat_map (fun item => pass CallFullyConsumed fs item) items.

Definition is_bufsize_call (c : Call) : bool :=
  match c with CallBufsizeChange _ _ => true | _ => false end.

Definition is_fullyConsumed_call (c : Call) : bool :=
  match c with CallFullyConsumed _ _ => true | _ => false end.

Definition bufsize_calls (cl : list Call) : list Call := List.filter is_bufsize_call cl.

Definition fullyConsumed_calls (cl : list Call) : list Call :=
  List.filter is_fullyConsumed_call cl.

(** A Reader that has not been unsubscribed. *)
Definition live (r : Reader) : bool :=
  match d r with Ptr => true | Nil => false end.

(** The number of live Readers of [rs] whose position is [p]. *)
Fixpoint claims (p : Z) (rs : list Reader) : Z :=
  match rs with
  | [] => 0
  | r :: rs' => (if live r && (position r =? p) then 1 else 0) + claims p rs'
  end.

(** The test of [WaitChan]: no unconsumed event exists for [r]. *)
Definition unready (r : Reader) (w : World) : Prop :=
  len (buf (dist w)) <= sub64 (position r) (basePosition (dist w)).

(** The items submitted by a program, in order. *)
Fixpoint submitted (ops : list Op) : list T :=
  match ops with
  | [] => []
  | OpSubmit item :: ops' => item :: submitted ops'
  | _ :: ops' => submitted ops'
  end.

(** The items returned by the [Consume] calls on handle [i], in order. *)
Fixpoint consumed_by (i : nat) (s : System) (ops : list Op) : list T :=
  match ops with
  | [] => []
  | op :: ops' =>
      match step s op with
      | Some (ret, s1) =>
          match op, ret with
          | OpConsume j, RetItem item =>
              if Nat.eqb j i then item :: consumed_by i s1 ops'
              else consumed_by i s1 ops'
          | _, _ => consumed_by i s1 ops'
          end
      | None => []
      end
  end.

(** Whether handle [i] exists and is subscribed. *)
Definition subscribed (i : nat) (s : System) : bool :=
  match readers s !! i with Some r => live r | None => false end.

(** The items submitted while handle [i] is subscribed, in order. *)
Fixpoint submitted_to (i : nat) (s : System) (ops : list Op) : list T :=
  match ops with
  | [] => []
  | op :: ops' =>
      match step s op with
      | Some (_, s1) =>
          match op with
          | OpSubmit item =>
              if subscribed i s then item :: submitted_to i s1 ops'
              else submitted_to i s1 ops'
          | _ => submitted_to i s1 ops'
          end
      | None => []
      end
  end.

(** The events retained for handle [i]: those from its position on. *)
Definition unread (i : nat) (s : System) : list T :=
  match readers s !! i with
  | Some r =>
      if live r then
        map value
          (drop (Z.to_nat (position r - basePosition (dist (world s))))
             (buf (dist (world s))))
      else []
  | None => []
  end.

(** The number of slots at the front of the backlog whose refcount is zero. *)
Fixpoint leading_zeros (l : list eventInfo) : nat :=
  match l with
  | [] => 0%nat
  | e :: l' => if refcount e =? 0 then S (leading_zeros l') else 0%nat
  end.

(** The world after the first [k] slots were dropped and reported: nothing
    happens for [k = 0]. *)
Definition trimmed (w : World) (k : nat) : World :=
  match k with
  | O => w
  | S _ =>
      let ds := dist w in
      let rest := drop k (buf ds) in
      mkWorld
        (with_basePosition (with_buf ds rest) (add64 (basePosition ds) (Z.of_nat k)))
        (chans w)
        (calls w ++ fired (onFullyConsumed ds) (map value (take k (buf ds)))
                 ++ pass CallBufsizeChange (onBufsizeChange ds) (len rest))
  end.

(** The world of [Consume] just before it trims: the claim on slot [idx] has
    moved to the next slot or, at the tail, to [nextRefcount]. *)
Definition claim_moved (w : World) (idx : Z) : World :=
  let ds1 := with_buf (dist w) (bump (buf (dist w)) idx (-1)) in
  with_dist w
    (if idx + 1 <? len (buf ds1) then with_buf ds1 (bump (buf ds1) (idx + 1) 1)
     else with_nextRefcount ds1 (add64 (nextRefcount ds1) 1)).

(** What an operation taking [w] to [w'] reports on [onBufsizeChange]: one
    pass with the new length when the length of the backlog changed, nothing
    otherwise. *)
Definition bufsize_report (w w' : World) : Prop :=
  exists new : list Call,
    calls w' = calls w ++ new /\
    bufsize_calls new =
      if len (buf (dist w')) =? len (buf (dist w)) then []
      else pass CallBufsizeChange (onBufsizeChange (dist w')) (len (buf (dist w'))).

(** The bookkeeping of a Distributor agrees with the Readers [rs] of its
    clients; [n] bounds the counters (it counts the calls made so far). *)
Record Counted (n : Z) (ds : Distributor) (rs : list Reader) : Prop := mkCounted {
  cnt_base : 0 <= basePosition ds;
  cnt_tail : basePosition ds + len (buf ds) <= n;
  cnt_readers : len rs <= n;
  cnt_position : forall i r, rs !! i = Some r -> live r = true ->
    basePosition ds <= position r <= basePosition ds + len (buf ds);
  cnt_refcount : forall j e, buf ds !! j = Some e ->
    refcount e = claims (basePosition ds + Z.of_nat j) rs;
  cnt_next : nextRefcount ds = claims (basePosition ds + len (buf ds)) rs
}.

(** The first slot of the backlog, if any, is claimed. *)
Definition head_claimed (ds : Distributor) : Prop :=
  forall e, buf ds !! 0%nat = Some e -> refcount e <> 0.

Definition Inv (n : Z) (s : System) : Prop :=
  Counted n (dist (world s)) (readers s) /\ head_claimed (dist (world s)).

(** The channel heap is sound: [closedChannel] is closed, and the stored
    wakeup channel, if any, is allocated and open. *)
Definition chans_ok (w : World) : Prop :=
  is_closed (chans w) closedChannel = true /\
  forall c, waiters (dist w) = Some c ->
    (c < length (chans w))%nat /\ is_closed (chans w) c = false.

(** A Distributor on which no operation has been called yet. *)
Definition unused (ds : Distributor) : Prop :=
  basePosition ds = 0 /\ buf ds = [] /\ nextRefcount ds = 0 /\ waiters ds = None.

(** What the three callback lists of [New options] hold: the callbacks of
    each kind, in the order of the options and of the calls that built them. *)
Definition registered (pick : modifier -> list callback) (options : list Options)
    : list callback :=
  flat_map (fun os => flat_map pick (modify os)) options.

Definition pick_onBufsizeChange (f : modifier) : list callback :=
  match f with AppendOnBufsizeChange cb => [cb] | _ => [] end.

Definition pick_onSubmit (f : modifier) : list callback :=
  match f with AppendOnSubmit cb => [cb] | _ => [] end.

Definition pick_onFullyConsumed (f : modifier) : list callback :=
  match f with AppendOnFullyConsumed cb => [cb] | _ => [] end.


(** ** Sample programs

    Two subscribers, two items: the first subscriber sees both items, the
    second only the later one. *)
Definition two_readers (a b : T) : list Op :=
  [OpSubscribe; OpSubmit a; OpSubscribe; OpSubmit b;
   OpConsume 0; OpWaitChan 1; OpConsume 1; OpConsume 0; OpUnsubscribe 0].

(** Two subscribers that have nothing to read yet. *)
Definition two_waiting : list Op := [OpSubscribe; OpSubscribe].

(** A world whose backlog is [a] (claimed by nobody), [b] (claimed once). *)
Definition stale_world (a b : T) : World :=
  mkWorld (mkDistributor 4 [mkEventInfo 0 a; mkEventInfo 1 b] 0 None [7%nat] [] [8%nat])
    [true] [].

(** A world whose backlog is [a] and [b], each claimed once. *)
Definition held_world (a b : T) : World :=
  mkWorld (mkDistributor 4 [mkEventInfo 1 a; mkEventInfo 1 b] 0 None [7%nat] [] [8%nat])
    [true] [].

(** One callback of each kind. *)
Definition sample_options : list Options :=
  [OnFullyConsumed (OnSubmit (OnBufsizeChange (mkOptions []) 7%nat) 1%nat) 3%nat].

(** ** Further notions *)

Definition is_submit_call (c : Call) : bool :=
  match c with CallSubmit _ _ => true | _ => false end.

Definition submit_calls (cl : list Call) : list Call := List.filter is_submit_call cl.

(** The size last passed to an [onBufsizeChange] callback, 0 before the first
    such call. *)
Definition reported_size (cl : list Call) : Z :=
  fold_left (fun acc c => match c with CallBufsizeChange _ n => n | _ => acc end) cl 0.

(** All the claims a Distributor records: the refcounts of its slots and
    [nextRefcount]. *)
Definition total_claims (ds : Distributor) : Z :=
  fold_right (fun e acc => refcount e + acc) (nextRefcount ds) (buf ds).

Definition live_count (rs : list Reader) : Z := len (List.filter live rs).

(** The number of live Readers of [rs] whose position is one of the [k]
    positions from [p] on. *)
Fixpoint claims_from (p : Z) (k : nat) (rs : list Reader) : Z :=
  match k with
  | O => 0
  | S k' => claims p rs + claims_from (p + 1) k' rs
  end.

(** ** Arithmetic *)

Lemma wrap64_id (z : Z) : int64_range z -> wrap64 z = z.
Proof.
  unfold int64_range, wrap64. intros Hz.
  rewrite Z.mod_small; lia.
Qed.

Lemma wrap64_range (z : Z) : int64_range (wrap64 z).
Proof.
  unfold int64_range, wrap64.
  pose proof (Z.mod_pos_bound (z + 2 ^ 63) (2 ^ 64) ltac:(lia)). lia.
Qed.

Lemma len_app {A : Type} (a b : list A) : len (a ++ b) = len a + len b.
Proof. unfold len. rewrite length_app. lia. Qed.

Lemma len_nonneg {A : Type} (a : list A) : 0 <= len a.
Proof. unfold len. lia. Qed.

Lemma len_zero {A : Type} (a : list A) : len a = 0 -> a = [].
Proof. destruct a; [reflexivity | unfold len; simpl; lia]. Qed.

Lemma index_Some {A : Type} (s : list A) (i : Z) (x : A) :
  index s i = Some x <-> 0 <= i /\ s !! Z.to_nat i = Some x.
Proof.
  unfold index. destruct (Z.ltb_spec i 0); split.
  - discriminate.
  - intros [? _]. lia.
  - intros H1. split; [lia | exact H1].
  - intros [_ H1]. exact H1.
Qed.

Lemma index_lt {A : Type} (s : list A) (i : Z) (x : A) :
  index s i = Some x -> 0 <= i < len s.
Proof.
  intros [H0 H1]%index_Some. apply lookup_lt_Some in H1. unfold len. lia.
Qed.

(** ** The log of one pass *)

Lemma runCallbacks_spec {V : Type} (mk : callback -> V -> Call) fs (v : V) (w : World) :
  runCallbacks mk fs v w = with_calls w (calls w ++ pass mk fs v).
Proof.
  unfold runCallbacks, pass. revert w.
  induction fs as [|f fs IH]; intros w; simpl.
  - rewrite app_nil_r. destruct w; reflexivity.
  - rewrite IH. unfold with_calls. simpl. rewrite <- app_assoc. reflexivity.
Qed.

Lemma with_calls_id (w : World) : with_calls w (calls w ++ []) = w.
Proof. rewrite app_nil_r. destruct w; reflexivity. Qed.

Lemma leading_zeros_le (l : list eventInfo) : (leading_zeros l <= length l)%nat.
Proof.
  induction l as [|e l IH]; simpl; [lia|].
  destruct (refcount e =? 0); simpl; lia.
Qed.

Lemma leading_zeros_zero (l : list eventInfo) (j : nat) (e : eventInfo) :
  (j < leading_zeros l)%nat -> l !! j = Some e -> refcount e = 0.
Proof.
  revert j. induction l as [|x l IH]; intros j Hj He; simpl in *; [lia|].
  destruct (Z.eqb_spec (refcount x) 0) as [Hx|Hx]; [|lia].
  destruct j as [|j]; simpl in He.
  - congruence.
  - apply (IH j); [lia | exact He].
Qed.

Lemma leading_zeros_stop (l : list eventInfo) (e : eventInfo) :
  l !! leading_zeros l = Some e -> refcount e <> 0.
Proof.
  induction l as [|x l IH]; simpl; [discriminate|].
  destruct (Z.eqb_spec (refcount x) 0) as [Hx|Hx]; simpl.
  - exact IH.
  - congruence.
Qed.

Lemma leading_zeros_head (l : list eventInfo) :
  leading_zeros l = 0%nat <-> (forall e, l !! 0%nat = Some e -> refcount e <> 0).
Proof.
  destruct l as [|x l]; simpl.
  - split; [discriminate | reflexivity].
  - destruct (Z.eqb_spec (refcount x) 0) as [Hx|Hx]; split.
    + discriminate.
    + intros H. exfalso. apply (H x); [reflexivity | exact Hx].
    + intros _ e [= <-]. exact Hx.
    + reflexivity.
Qed.

Lemma cleanupLoop_spec (rest : list eventInfo) (n : nat) (w : World) :
  cleanupLoop rest n w =
    ((n + leading_zeros rest)%nat,
     with_calls w
       (calls w ++
        fired (onFullyConsumed (dist w)) (map value (take (leading_zeros rest) rest)))).
Proof.
  revert n w. induction rest as [|e rest IH]; intros n w; simpl.
  - rewrite Nat.add_0_r. simpl. rewrite with_calls_id. reflexivity.
  - destruct (Z.eqb_spec (refcount e) 0) as [Hz|Hz]; simpl.
    + rewrite IH, runCallbacks_spec. simpl.
      rewrite <- app_assoc. f_equal. lia.
    + rewrite Nat.add_0_r. simpl. rewrite with_calls_id. reflexivity.
Qed.

Lemma cleanupOldEvents_spec (w : World) :
  cleanupOldEvents w = trimmed w (leading_zeros (buf (dist w))).
Proof.
  unfold cleanupOldEvents, trimmed.
  destruct (Z.eqb_spec (len (buf (dist w))) 0) as [Hl|Hl].
  - apply len_zero in Hl. rewrite Hl. reflexivity.
  - rewrite cleanupLoop_spec. cbn [Nat.add].
    pose proof (leading_zeros_le (buf (dist w))) as Hle.
    destruct (leading_zeros (buf (dist w))) as [|k] eqn:Hk.
    + cbn. rewrite with_calls_id. reflexivity.
    + remember (S k) as k1 eqn:Hk1.
      destruct (Z.eqb_spec (Z.of_nat k1) 0) as [H0|H0]; [lia|].
      rewrite runCallbacks_spec.
      cbn [dist with_calls with_dist with_buf with_basePosition buf basePosition
           onBufsizeChange onFullyConsumed chans calls].
      assert (Hd : (if Z.of_nat k1 =? len (buf (dist w)) then []
                    else drop k1 (buf (dist w))) = drop k1 (buf (dist w))).
      { destruct (Z.eqb_spec (Z.of_nat k1) (len (buf (dist w)))) as [He|He];
          [|reflexivity].
        symmetry. apply drop_ge. unfold len in He. lia. }
      destruct (Z.of_nat k1 =? len (buf (dist w)));
        cbn [dist with_calls with_dist with_buf with_basePosition buf basePosition
             onBufsizeChange onFullyConsumed chans calls];
        rewrite <- ?Hd, <- app_assoc; reflexivity.
Qed.

(** ** Filtering the log *)

Lemma bufsize_calls_app (a b : list Call) :
  bufsize_calls (a ++ b) = bufsize_calls a ++ bufsize_calls b.
Proof. unfold bufsize_calls. apply List.filter_app. Qed.

Lemma bufsize_calls_pass_size fs (n : Z) :
  bufsize_calls (pass CallBufsizeChange fs n) = pass CallBufsizeChange fs n.
Proof. unfold bufsize_calls, pass. induction fs as [|f fs IH]; simpl; congruence. Qed.

Lemma bufsize_calls_pass_submit fs (item : T) :
  bufsize_calls (pass CallSubmit fs item) = [].
Proof. unfold bufsize_calls, pass. induction fs as [|f fs IH]; simpl; congruence. Qed.

Lemma bufsize_calls_pass_consumed fs (item : T) :
  bufsize_calls (pass CallFullyConsumed fs item) = [].
Proof. unfold bufsize_calls, pass. induction fs as [|f fs IH]; simpl; congruence. Qed.

Lemma bufsize_calls_fired fs (items : list T) : bufsize_calls (fired fs items) = [].
Proof.
  unfold fired. induction items as [|x items IH]; simpl; [reflexivity|].
  rewrite bufsize_calls_app, bufsize_calls_pass_consumed, IH. reflexivity.
Qed.

Lemma fullyConsumed_calls_app (a b : list Call) :
  fullyConsumed_calls (a ++ b) = fullyConsumed_calls a ++ fullyConsumed_calls b.
Proof. unfold fullyConsumed_calls. apply List.filter_app. Qed.

Lemma fullyConsumed_calls_pass_size fs (n : Z) :
  fullyConsumed_calls (pass CallBufsizeChange fs n) = [].
Proof. unfold fullyConsumed_calls, pass. induction fs as [|f fs IH]; simpl; congruence. Qed.

Lemma fullyConsumed_calls_pass_submit fs (item : T) :
  fullyConsumed_calls (pass CallSubmit fs item) = [].
Proof. unfold fullyConsumed_calls, pass. induction fs as [|f fs IH]; simpl; congruence. Qed.




(** ** Submit, case by case *)

Lemma Submit_discard (item : T) (w : World) :
  buf (dist w) = [] -> nextRefcount (dist w) = 0 ->
  Submit item w =
    with_calls w
      (calls w ++ pass CallSubmit (onSubmit (dist w)) item
               ++ pass CallFullyConsumed (onFullyConsumed (dist w)) item).
Proof.
  intros Hb Hn. unfold Submit. rewrite !runCallbacks_spec.
  cbn [dist with_calls calls chans]. rewrite Hb, Hn. cbn.
  rewrite <- app_assoc. reflexivity.
Qed.

Lemma Submit_append (item : T) (w : World) :
  (len (buf (dist w)) =? 0) && (nextRefcount (dist w) =? 0) = false ->
  Submit item w =
    mkWorld
      (mkDistributor (basePosition (dist w))
         (buf (dist w) ++ [mkEventInfo (nextRefcount (dist w)) item]) 0 None
         (onBufsizeChange (dist w)) (onSubmit (dist w)) (onFullyConsumed (dist w)))
      (match waiters (dist w) with Some c => close c (chans w) | None => chans w end)
      (calls w ++ pass CallSubmit (onSubmit (dist w)) item
               ++ pass CallBufsizeChange (onBufsizeChange (dist w))
                    (len (buf (dist w)) + 1)).
Proof.
  intros Hc. unfold Submit. rewrite !runCallbacks_spec.
  cbn [dist with_calls calls chans]. rewrite Hc.
  destruct w as [[b l n wt f1 f2 f3] ch cl]. cbn in *.
  destruct wt as [c|]; cbn; rewrite <- app_assoc, len_app;
    unfold with_calls, len; cbn; reflexivity.
Qed.

(** ** Refcount updates in place *)

Lemma bump_length (l : list eventInfo) (i delta : Z) :
  length (bump l i delta) = length l.
Proof. unfold bump. destruct (index l i); [apply length_insert | reflexivity]. Qed.

Lemma len_bump (l : list eventInfo) (i delta : Z) : len (bump l i delta) = len l.
Proof. unfold len. rewrite bump_length. reflexivity. Qed.

Lemma bump_lookup_eq (l : list eventInfo) (i delta : Z) (e : eventInfo) :
  index l i = Some e ->
  bump l i delta !! Z.to_nat i = Some (with_refcount e (add64 (refcount e) delta)).
Proof.
  intros He. unfold bump. rewrite He.
  apply index_Some in He as [_ He]. apply lookup_lt_Some in He.
  apply list_lookup_insert_eq. exact He.
Qed.

Lemma bump_lookup_ne (l : list eventInfo) (i delta : Z) (j : nat) :
  j <> Z.to_nat i -> bump l i delta !! j = l !! j.
Proof.
  intros Hne. unfold bump. destruct (index l i); [|reflexivity].
  apply list_lookup_insert_ne. congruence.
Qed.

Lemma bump_value (l : list eventInfo) (i delta : Z) :
  map value (bump l i delta) = map value l.
Proof.
  unfold bump. destruct (index l i) as [e|] eqn:He; [|reflexivity].
  apply index_Some in He as [_ He].
  apply list_eq. intros j. rewrite !list_lookup_fmap.
  destruct (decide (j = Z.to_nat i)) as [->|Hne].
  - rewrite list_lookup_insert_eq by (eapply lookup_lt_Some; exact He).
    rewrite He. reflexivity.
  - rewrite list_lookup_insert_ne by congruence. reflexivity.
Qed.

(** ** The Reader operations, case by case *)

Lemma Consume_Done (r : Reader) (w : World) :
  d r = Ptr ->
  forall e, index (buf (dist w)) (sub64 (position r) (basePosition (dist w))) = Some e ->
  Consume r w =
    Done (value e, mkReader Ptr (add64 (position r) 1))
      (cleanupOldEvents
         (claim_moved w (sub64 (position r) (basePosition (dist w))))).
Proof.
  intros Hd e He. unfold Consume, claim_moved. rewrite Hd, He. reflexivity.
Qed.

Lemma Consume_inv (r r1 : Reader) (w w1 : World) (item : T) :
  Consume r w = Done (item, r1) w1 ->
  d r = Ptr /\
  exists e,
    index (buf (dist w)) (sub64 (position r) (basePosition (dist w))) = Some e /\
    item = value e /\
    r1 = mkReader Ptr (add64 (position r) 1) /\
    w1 = cleanupOldEvents
           (claim_moved w (sub64 (position r) (basePosition (dist w)))).
Proof.
  unfold Consume, claim_moved. destruct (d r) eqn:Hd; [discriminate|].
  destruct (index _ _) as [e|] eqn:He; [|discriminate].
  intros [= <- <- <-]. split; [reflexivity|]. exists e. auto.
Qed.

Lemma Consume_Panic (r : Reader) (w w1 : World) :
  Consume r w = Panic w1 -> w1 = w.
Proof.
  unfold Consume. destruct (d r); [congruence|].
  destruct (index _ _); [discriminate | congruence].
Qed.

Lemma WaitChan_Panic (r : Reader) (w w1 : World) :
  WaitChan r w = Panic w1 -> w1 = w.
Proof.
  unfold WaitChan. destruct (d r); [congruence|].
  destruct (_ <? _); [discriminate|]. destruct (waiters _); discriminate.
Qed.

Lemma Unsubscribe_Panic (r : Reader) (w w1 : World) :
  Unsubscribe r w = Panic w1 -> w1 = w.
Proof.
  unfold Unsubscribe. destruct (d r); [congruence|].
  destruct (_ <? _); [|discriminate].
  destruct (index _ _); [discriminate | congruence].
Qed.

Lemma Unsubscribe_inv (r r1 : Reader) (w w1 : World) :
  Unsubscribe r w = Done r1 w1 ->
  let idx := sub64 (position r) (basePosition (dist w)) in
  d r = Ptr /\ r1 = mkReader Nil (position r) /\
  ((exists e, index (buf (dist w)) idx = Some e /\
      let w0 := with_dist w (with_buf (dist w) (bump (buf (dist w)) idx (-1))) in
      w1 = if idx =? 0 then cleanupOldEvents w0 else w0) \/
   (len (buf (dist w)) <= idx /\
    w1 = with_dist w
           (with_nextRefcount (dist w) (add64 (nextRefcount (dist w)) (-1))))).
Proof.
  unfold Unsubscribe. destruct (d r) eqn:Hd; [discriminate|].
  destruct (Z.ltb_spec (sub64 (position r) (basePosition (dist w)))
              (len (buf (dist w)))) as [Hlt|Hge].
  - destruct (index _ _) as [e|] eqn:He; [|discriminate].
    intros [= <- <-]. cbn zeta. split; [reflexivity|]. split; [reflexivity|].
    left. exists e. split; reflexivity.
  - intros [= <- <-]. cbn zeta. split; [reflexivity|]. split; [reflexivity|].
    right. split; [lia | reflexivity].
Qed.

Lemma WaitChan_inv (r : Reader) (w w1 : World) (c : chan) :
  WaitChan r w = Done c w1 ->
  d r = Ptr /\
  ((sub64 (position r) (basePosition (dist w)) < len (buf (dist w)) /\
    c = closedChannel /\ w1 = w) \/
   (unready r w /\ waiters (dist w) = Some c /\ w1 = w) \/
   (unready r w /\ waiters (dist w) = None /\ c = length (chans w) /\
    w1 = with_chans (with_dist w (with_waiters (dist w) (Some c)))
           (chans w ++ [false]))).
Proof.
  unfold WaitChan, unready. destruct (d r) eqn:Hd; [discriminate|].
  destruct (Z.ltb_spec (sub64 (position r) (basePosition (dist w)))
              (len (buf (dist w)))) as [Hlt|Hge].
  - intros [= <- <-]. auto.
  - destruct (waiters (dist w)) as [c0|] eqn:Hw.
    + intros [= <- <-]. split; [reflexivity|]. right. left. auto.
    + intros [= <- <-]. split; [reflexivity|]. right. right. auto.
Qed.

(** ** Reports of the buffer size *)

Lemma bufsize_report_refl (w : World) : bufsize_report w w.
Proof.
  exists []. rewrite app_nil_r, Z.eqb_refl. split; reflexivity.
Qed.

Lemma bufsize_report_from (w w0 w1 : World) :
  calls w0 = calls w -> len (buf (dist w0)) = len (buf (dist w)) ->
  bufsize_report w0 w1 -> bufsize_report w w1.
Proof.
  intros Hc Hl (new & H1 & H2). exists new. rewrite <- Hc, <- Hl. auto.
Qed.

Lemma bufsize_report_trimmed (w : World) (k : nat) :
  (k <= length (buf (dist w)))%nat -> bufsize_report w (trimmed w k).
Proof.
  intros Hk. destruct k as [|k]; [apply bufsize_report_refl|].
  unfold trimmed, bufsize_report.
  cbn [dist calls buf with_buf with_basePosition onBufsizeChange].
  eexists. split; [reflexivity|].
  rewrite bufsize_calls_app, bufsize_calls_fired, bufsize_calls_pass_size.
  assert (Hne : len (drop (S k) (buf (dist w))) <> len (buf (dist w))).
  { unfold len. rewrite length_drop. lia. }
  apply Z.eqb_neq in Hne. rewrite Hne. reflexivity.
Qed.

Lemma bufsize_report_cleanupOldEvents (w : World) :
  bufsize_report w (cleanupOldEvents w).
Proof.
  rewrite cleanupOldEvents_spec. apply bufsize_report_trimmed, leading_zeros_le.
Qed.

Lemma bufsize_report_Submit (item : T) (w : World) :
  bufsize_report w (Submit item w).
Proof.
  destruct ((len (buf (dist w)) =? 0) && (nextRefcount (dist w) =? 0)) eqn:Hc.
  - apply andb_true_iff in Hc as [Hb Hn].
    apply Z.eqb_eq in Hb, Hn. apply len_zero in Hb.
    rewrite (Submit_discard item w Hb Hn). unfold bufsize_report.
    cbn [with_calls dist calls]. eexists. split; [reflexivity|].
    rewrite Z.eqb_refl, bufsize_calls_app, bufsize_calls_pass_submit,
      bufsize_calls_pass_consumed. reflexivity.
  - rewrite (Submit_append item w Hc). unfold bufsize_report.
    cbn [dist calls buf onBufsizeChange]. eexists. split; [reflexivity|].
    rewrite bufsize_calls_app, bufsize_calls_pass_submit, bufsize_calls_pass_size.
    rewrite len_app. change (len [mkEventInfo (nextRefcount (dist w)) item]) with 1.
    replace (len (buf (dist w)) + 1 =? len (buf (dist w))) with false
      by (symmetry; apply Z.eqb_neq; lia).
    reflexivity.
Qed.

Lemma claim_moved_calls (w : World) (idx : Z) : calls (claim_moved w idx) = calls w.
Proof. reflexivity. Qed.

Lemma claim_moved_chans (w : World) (idx : Z) : chans (claim_moved w idx) = chans w.
Proof. reflexivity. Qed.

Lemma claim_moved_len (w : World) (idx : Z) :
  len (buf (dist (claim_moved w idx))) = len (buf (dist w)).
Proof.
  unfold claim_moved. cbn [dist with_dist with_buf buf].
  destruct (_ <? _); cbn [with_buf with_nextRefcount buf]; rewrite ?len_bump;
    reflexivity.
Qed.

Lemma bufsize_report_step (s s1 : System) (op : Op) (ret : Ret) :
  step s op = Some (ret, s1) -> bufsize_report (world s) (world s1).
Proof.
  destruct op as [item| |i|i|i]; cbn [step].
  - intros [= <- <-]. apply bufsize_report_Submit.
  - intros [= <- <-]. exists []. cbn. rewrite app_nil_r, Z.eqb_refl.
    split; reflexivity.
  - destruct (readers s !! i) as [r|]; [|discriminate].
    destruct (WaitChan r (world s)) as [c w1|] eqn:Hw; [|discriminate].
    intros [= <- <-]. cbn [world].
    apply WaitChan_inv in Hw as [_ [(_ & _ & ->)|[(_ & _ & ->)|(_ & _ & _ & ->)]]];
      try apply bufsize_report_refl.
    exists []. cbn. rewrite app_nil_r, Z.eqb_refl. split; reflexivity.
  - destruct (readers s !! i) as [r|]; [|discriminate].
    destruct (Consume r (world s)) as [[item r1] w1|] eqn:Hc; [|discriminate].
    intros [= <- <-]. cbn [world].
    apply Consume_inv in Hc as (_ & e & _ & _ & _ & ->).
    eapply bufsize_report_from;
      [apply claim_moved_calls | apply claim_moved_len
      | apply bufsize_report_cleanupOldEvents].
  - destruct (readers s !! i) as [r|]; [|discriminate].
    destruct (Unsubscribe r (world s)) as [r1 w1|] eqn:Hu; [|discriminate].
    intros [= <- <-]. cbn [world].
    apply Unsubscribe_inv in Hu as (_ & _ & [(e & _ & Hw)|(_ & ->)]).
    + cbn zeta in Hw. subst w1. destruct (_ =? 0).
      * eapply bufsize_report_from; [| |apply bufsize_report_cleanupOldEvents].
        -- reflexivity.
        -- cbn. apply len_bump.
      * exists []. cbn. rewrite app_nil_r, len_bump, Z.eqb_refl.
        split; reflexivity.
    + exists []. cbn. rewrite app_nil_r, Z.eqb_refl. split; reflexivity.
Qed.

(** ** Counting claims *)

Lemma claims_bounds (p : Z) (rs : list Reader) : 0 <= claims p rs <= len rs.
Proof.
  unfold len. induction rs as [|r rs IH]; simpl; [lia|].
  destruct (live r && (position r =? p)); lia.
Qed.

Lemma claims_app (p : Z) (a b : list Reader) :
  claims p (a ++ b) = claims p a + claims p b.
Proof. induction a as [|r a IH]; simpl; [reflexivity | rewrite IH; lia]. Qed.

Lemma claims_insert (p : Z) (rs : list Reader) (i : nat) (r r1 : Reader) :
  rs !! i = Some r ->
  claims p (<[i := r1]> rs) =
    claims p rs - (if live r && (position r =? p) then 1 else 0)
                + (if live r1 && (position r1 =? p) then 1 else 0).
Proof.
  revert i. induction rs as [|x rs IH]; intros i Hi; [discriminate|].
  destruct i as [|i]; simpl in *.
  - injection Hi as ->. lia.
  - rewrite (IH i Hi). lia.
Qed.

Lemma claims_member (rs : list Reader) (i : nat) (r : Reader) :
  rs !! i = Some r -> live r = true -> 1 <= claims (position r) rs.
Proof.
  revert i. induction rs as [|x rs IH]; intros i Hi Hl; [discriminate|].
  destruct i as [|i]; simpl in *.
  - injection Hi as ->. rewrite Hl, Z.eqb_refl. simpl.
    pose proof (claims_bounds (position r) rs). lia.
  - pose proof (IH i Hi Hl). destruct (live x && _); lia.
Qed.

Lemma claims_none (p : Z) (rs : list Reader) :
  (forall i r, rs !! i = Some r -> live r = true -> position r <> p) ->
  claims p rs = 0.
Proof.
  induction rs as [|x rs IH]; intros H; simpl; [reflexivity|].
  rewrite IH by (intros i r Hi; apply (H (S i) r Hi)).
  destruct (live x) eqn:Hl; simpl; [|reflexivity].
  destruct (Z.eqb_spec (position x) p) as [He|He]; [|reflexivity].
  exfalso. exact (H 0%nat x eq_refl Hl He).
Qed.

Lemma Counted_le (n m : Z) (ds : Distributor) (rs : list Reader) :
  n <= m -> Counted n ds rs -> Counted m ds rs.
Proof. intros Hnm [H1 H2 H3 H4 H5 H6]. split; auto; lia. Qed.

Lemma Counted_waiters n ds rs c :
  Counted n ds rs -> Counted n (with_waiters ds c) rs.
Proof. intros [H1 H2 H3 H4 H5 H6]. split; auto. Qed.

(** ** Trimming keeps the counts and leaves a claimed head *)

Lemma Counted_cleanupOldEvents (n : Z) (w : World) (rs : list Reader) :
  n < 2 ^ 63 -> Counted n (dist w) rs ->
  Counted n (dist (cleanupOldEvents w)) rs /\
  head_claimed (dist (cleanupOldEvents w)).
Proof.
  intros Hn HC. rewrite cleanupOldEvents_spec.
  pose proof (leading_zeros_le (buf (dist w))) as Hle.
  destruct (leading_zeros (buf (dist w))) as [|k] eqn:Hk.
  { split; [exact HC|]. unfold head_claimed. cbn [trimmed].
    apply leading_zeros_head. exact Hk. }
  destruct HC as [H1 H2 H3 H4 H5 H6].
  assert (Hlen : len (drop (S k) (buf (dist w))) = len (buf (dist w)) - Z.of_nat (S k)).
  { unfold len. rewrite length_drop. lia. }
  assert (Hbase : add64 (basePosition (dist w)) (Z.of_nat (S k))
                  = basePosition (dist w) + Z.of_nat (S k)).
  { apply wrap64_id. unfold int64_range, len in *. lia. }
  unfold trimmed. cbn [dist with_basePosition with_buf buf basePosition nextRefcount].
  rewrite Hbase.
  split; [split|];
    cbn [dist with_basePosition with_buf buf basePosition nextRefcount].
  - lia.
  - rewrite Hlen. lia.
  - exact H3.
  - intros i r Hi Hl. rewrite Hlen. specialize (H4 i r Hi Hl).
    split; [|lia].
    destruct (Z_lt_le_dec (position r) (basePosition (dist w) + Z.of_nat (S k)))
      as [Hlt|Hge]; [exfalso|lia].
    assert (Hj : (Z.to_nat (position r - basePosition (dist w)) < S k)%nat) by lia.
    destruct (lookup_lt_is_Some_2 (buf (dist w))
                (Z.to_nat (position r - basePosition (dist w))) ltac:(lia))
      as [e He].
    pose proof (leading_zeros_zero (buf (dist w)) _ e ltac:(rewrite Hk; exact Hj) He)
      as Hz.
    rewrite (H5 _ e He) in Hz.
    replace (basePosition (dist w)
             + Z.of_nat (Z.to_nat (position r - basePosition (dist w))))
      with (position r) in Hz by lia.
    pose proof (claims_member rs i r Hi Hl). lia.
  - intros j e He. rewrite lookup_drop in He. rewrite (H5 _ e He).
    f_equal. lia.
  - rewrite Hlen, H6. f_equal. lia.
  - unfold head_claimed. cbn [dist with_basePosition with_buf buf]. intros e He.
    rewrite lookup_drop, Nat.add_0_r in He.
    apply (leading_zeros_stop (buf (dist w))). rewrite Hk. exact He.
Qed.

(** ** Moving a claim keeps the counts *)

Lemma add64_id (a b : Z) : int64_range (a + b) -> add64 a b = a + b.
Proof. apply wrap64_id. Qed.

Lemma sub64_id (a b : Z) : int64_range (a - b) -> sub64 a b = a - b.
Proof. apply wrap64_id. Qed.

Lemma bump_lookup_inv (l : list eventInfo) (i delta : Z) (j : nat) (e1 : eventInfo) :
  bump l i delta !! j = Some e1 ->
  exists e0, l !! j = Some e0 /\ value e1 = value e0 /\
    refcount e1 = if decide (0 <= i /\ j = Z.to_nat i)
                  then add64 (refcount e0) delta else refcount e0.
Proof.
  intros H. unfold bump in H. destruct (index l i) as [e|] eqn:He.
  - apply index_Some in He as [H0 He].
    destruct (decide (j = Z.to_nat i)) as [->|Hne].
    + rewrite list_lookup_insert_eq in H by (eapply lookup_lt_Some; exact He).
      injection H as <-. exists e. rewrite decide_True by auto. auto.
    + rewrite list_lookup_insert_ne in H by congruence.
      exists e1. rewrite decide_False by tauto. auto.
  - exists e1. split; [exact H|]. split; [reflexivity|].
    destruct (decide (0 <= i /\ j = Z.to_nat i)) as [[H0 ->]|]; [|reflexivity].
    exfalso. unfold index in He. destruct (Z.ltb_spec i 0); [lia|]. congruence.
Qed.

Lemma Counted_index (n : Z) (ds : Distributor) (rs : list Reader) (i : nat)
    (r : Reader) :
  n < 2 ^ 63 -> Counted n ds rs -> rs !! i = Some r -> live r = true ->
  sub64 (position r) (basePosition ds) = position r - basePosition ds /\
  0 <= position r - basePosition ds <= len (buf ds).
Proof.
  intros Hn [H1 H2 H3 H4 H5 H6] Hi Hl. specialize (H4 i r Hi Hl).
  split; [|lia]. apply sub64_id. unfold int64_range. lia.
Qed.

Lemma Counted_claim_moved (n : Z) (w : World) (rs : list Reader) (i : nat)
    (r : Reader) (e : eventInfo) :
  n < 2 ^ 63 -> Counted n (dist w) rs -> rs !! i = Some r -> live r = true ->
  index (buf (dist w)) (sub64 (position r) (basePosition (dist w))) = Some e ->
  Counted n (dist (claim_moved w (sub64 (position r) (basePosition (dist w)))))
    (<[i := mkReader Ptr (add64 (position r) 1)]> rs).
Proof.
  intros Hn HC Hi Hl He.
  destruct (Counted_index n (dist w) rs i r Hn HC Hi Hl) as [Hsub Hidx].
  rewrite Hsub in *. apply index_lt in He as Hlt.
  destruct HC as [H1 H2 H3 H4 H5 H6].
  pose proof (H4 i r Hi Hl) as Hpos.
  assert (Hadd : add64 (position r) 1 = position r + 1).
  { apply add64_id. unfold int64_range. lia. }
  rewrite Hadd.
  set (rs1 := <[i := mkReader Ptr (position r + 1)]> rs).
  assert (Hcl : forall p, claims p rs1 =
            claims p rs - (if position r =? p then 1 else 0)
                        + (if position r + 1 =? p then 1 else 0)).
  { intros p. unfold rs1. rewrite (claims_insert p rs i r _ Hi), Hl. reflexivity. }
  assert (Hlen1 : len rs1 = len rs).
  { unfold rs1, len. rewrite length_insert. reflexivity. }
  pose proof (claims_member rs i r Hi Hl) as Hmem.
  unfold claim_moved. cbn [dist with_dist with_buf buf]. rewrite len_bump.
  destruct (Z.ltb_spec (position r - basePosition (dist w) + 1) (len (buf (dist w))))
    as [Hnext|Hlast].
  - split; cbn [with_buf with_nextRefcount basePosition buf nextRefcount];
      rewrite ?len_bump; auto.
    + lia.
    + intros i0 r0 Hi0 Hl0. unfold rs1 in Hi0.
      destruct (decide (i0 = i)) as [->|Hne].
      * rewrite list_lookup_insert_eq in Hi0 by (eapply lookup_lt_Some; exact Hi).
        injection Hi0 as <-. cbn. lia.
      * rewrite list_lookup_insert_ne in Hi0 by congruence. eauto.
    + intros j e2 He2.
      apply bump_lookup_inv in He2 as (e1 & He1 & _ & Hr2).
      apply bump_lookup_inv in He1 as (e0 & He0 & _ & Hr1).
      rewrite Hr2, Hr1, (H5 j e0 He0). rewrite (Hcl (basePosition (dist w) + Z.of_nat j)).
      pose proof (claims_bounds (basePosition (dist w) + Z.of_nat j) rs1) as Hb1.
      pose proof (claims_bounds (basePosition (dist w) + Z.of_nat j) rs) as Hb0.
      rewrite (Hcl (basePosition (dist w) + Z.of_nat j)) in Hb1.
      repeat case_decide;
        destruct (Z.eqb_spec (position r) (basePosition (dist w) + Z.of_nat j));
        destruct (Z.eqb_spec (position r + 1) (basePosition (dist w) + Z.of_nat j));
        try lia;
        rewrite ?add64_id by (unfold int64_range; lia);
        try lia;
        rewrite ?add64_id by (unfold int64_range; lia);
        lia.
    + rewrite H6, Hcl.
      destruct (Z.eqb_spec (position r) (basePosition (dist w) + len (buf (dist w))));
        destruct (Z.eqb_spec (position r + 1)
                    (basePosition (dist w) + len (buf (dist w)))); lia.
  - split; cbn [with_buf with_nextRefcount basePosition buf nextRefcount];
      rewrite ?len_bump; auto.
    + lia.
    + intros i0 r0 Hi0 Hl0. unfold rs1 in Hi0.
      destruct (decide (i0 = i)) as [->|Hne].
      * rewrite list_lookup_insert_eq in Hi0 by (eapply lookup_lt_Some; exact Hi).
        injection Hi0 as <-. cbn. lia.
      * rewrite list_lookup_insert_ne in Hi0 by congruence. eauto.
    + intros j e1 He1.
      apply bump_lookup_inv in He1 as (e0 & He0 & _ & Hr1).
      pose proof (lookup_lt_Some _ _ _ He0) as Hj. unfold len in *.
      rewrite Hr1, (H5 j e0 He0). rewrite (Hcl (basePosition (dist w) + Z.of_nat j)).
      pose proof (claims_bounds (basePosition (dist w) + Z.of_nat j) rs) as Hb0.
      repeat case_decide;
        destruct (Z.eqb_spec (position r) (basePosition (dist w) + Z.of_nat j));
        destruct (Z.eqb_spec (position r + 1) (basePosition (dist w) + Z.of_nat j));
        try lia;
        rewrite ?add64_id by (unfold int64_range, len in *; lia);
        unfold len in *; lia.
    + rewrite H6, Hcl.
      pose proof (claims_bounds (basePosition (dist w) + len (buf (dist w))) rs1) as Hb1.
      rewrite Hcl in Hb1.
      destruct (Z.eqb_spec (position r) (basePosition (dist w) + len (buf (dist w))));
        destruct (Z.eqb_spec (position r + 1)
                    (basePosition (dist w) + len (buf (dist w)))); try lia.
      rewrite add64_id by (unfold int64_range; lia). lia.
Qed.

(** ** Every operation keeps the invariant *)

Lemma Inv_Subscribe (n : Z) (s : System) :
  n + 1 < 2 ^ 63 -> Inv n s ->
  Inv (n + 1) (mkSystem (snd (Subscribe (world s)))
                 (readers s ++ [fst (Subscribe (world s))])).
Proof.
  intros Hn [[H1 H2 H3 H4 H5 H6] Hh]. unfold Inv, Subscribe.
  cbn [fst snd world readers dist with_dist with_nextRefcount basePosition buf
       nextRefcount].
  pose proof (claims_bounds (basePosition (dist (world s))
                             + len (buf (dist (world s)))) (readers s)) as Hb.
  pose proof (len_nonneg (buf (dist (world s)))) as Hlen.
  rewrite !add64_id by (unfold int64_range; lia).
  split; [split|exact Hh];
    cbn [with_nextRefcount basePosition buf nextRefcount].
  - lia.
  - lia.
  - rewrite len_app. change (len [_]) with 1. lia.
  - intros i r Hi Hl. apply lookup_app_Some in Hi as [Hi|[_ Hi]]; [eauto|].
    apply list_lookup_singleton_Some in Hi as [_ <-]. cbn. lia.
  - intros j e He. rewrite claims_app, (H5 j e He). cbn.
    apply lookup_lt_Some in He.
    destruct (Z.eqb_spec (basePosition (dist (world s)) + len (buf (dist (world s))))
                (basePosition (dist (world s)) + Z.of_nat j)); [unfold len in *|]; lia.
  - rewrite claims_app, H6. cbn. rewrite Z.eqb_refl. lia.
Qed.

Lemma Inv_Submit (n : Z) (s : System) (item : T) :
  Inv n s -> Inv (n + 1) (mkSystem (Submit item (world s)) (readers s)).
Proof.
  intros [HC Hh]. unfold Inv. cbn [world readers].
  destruct ((len (buf (dist (world s))) =? 0)
            && (nextRefcount (dist (world s)) =? 0)) eqn:Hc.
  - apply andb_true_iff in Hc as [Hb Hz].
    apply Z.eqb_eq in Hb, Hz. apply len_zero in Hb.
    rewrite (Submit_discard item _ Hb Hz). cbn [dist with_calls].
    split; [|exact Hh]. eapply Counted_le; [|exact HC]. lia.
  - rewrite (Submit_append item _ Hc). cbn [dist].
    destruct HC as [H1 H2 H3 H4 H5 H6].
    split; [split|]; cbn [basePosition buf nextRefcount].
    + lia.
    + rewrite len_app. change (len [_]) with 1. lia.
    + lia.
    + intros i r Hi Hl. rewrite len_app. specialize (H4 i r Hi Hl).
      change (len [_]) with 1. lia.
    + intros j e He. apply lookup_app_Some in He as [He|[Hj He]]; [eauto|].
      apply list_lookup_singleton_Some in He as [Hj0 <-]. cbn [refcount].
      rewrite H6. f_equal. unfold len. lia.
    + symmetry. apply claims_none. intros i r Hi Hl.
      specialize (H4 i r Hi Hl). rewrite len_app. change (len [_]) with 1. lia.
    + intros e He. destruct (buf (dist (world s))) as [|x l] eqn:Hb.
      * cbn in He. injection He as <-. cbn [refcount].
        cbn in Hc. apply Z.eqb_neq. exact Hc.
      * cbn in He. injection He as <-. apply Hh. rewrite Hb. reflexivity.
Qed.

Lemma Inv_WaitChan (n : Z) (s : System) (r : Reader) (c : chan) (w1 : World) :
  WaitChan r (world s) = Done c w1 ->
  Inv n s -> Inv (n + 1) (mkSystem w1 (readers s)).
Proof.
  intros Hw [HC Hh]. unfold Inv. cbn [world readers].
  apply WaitChan_inv in Hw as [_ [(_ & _ & ->)|[(_ & _ & ->)|(_ & _ & _ & ->)]]].
  - split; [|exact Hh]. eapply Counted_le; [|exact HC]. lia.
  - split; [|exact Hh]. eapply Counted_le; [|exact HC]. lia.
  - cbn [dist with_chans with_dist]. split; [|exact Hh].
    apply Counted_waiters. eapply Counted_le; [|exact HC]. lia.
Qed.

Lemma Inv_Consume (n : Z) (s : System) (i : nat) (r r1 : Reader) (item : T)
    (w1 : World) :
  n < 2 ^ 63 -> readers s !! i = Some r ->
  Consume r (world s) = Done (item, r1) w1 ->
  Inv n s -> Inv (n + 1) (mkSystem w1 (<[i := r1]> (readers s))).
Proof.
  intros Hn Hi Hc [HC Hh].
  apply Consume_inv in Hc as (Hd & e & He & _ & -> & ->).
  assert (Hl : live r = true) by (unfold live; rewrite Hd; reflexivity).
  pose proof (Counted_claim_moved n _ _ i r e Hn HC Hi Hl He) as HC1.
  destruct (Counted_cleanupOldEvents n _ _ Hn HC1) as [HC2 Hh2].
  split; [|exact Hh2]. cbn [world readers].
  eapply Counted_le; [|exact HC2]. lia.
Qed.

Lemma Inv_Unsubscribe (n : Z) (s : System) (i : nat) (r r1 : Reader) (w1 : World) :
  n < 2 ^ 63 -> readers s !! i = Some r ->
  Unsubscribe r (world s) = Done r1 w1 ->
  Inv n s -> Inv (n + 1) (mkSystem w1 (<[i := r1]> (readers s))).
Proof.
  intros Hn Hi Hu [HC Hh].
  apply Unsubscribe_inv in Hu as (Hd & -> & Hcases). cbn zeta in Hcases.
  assert (Hl : live r = true) by (unfold live; rewrite Hd; reflexivity).
  destruct (Counted_index n _ _ i r Hn HC Hi Hl) as [Hsub Hidx].
  rewrite Hsub in Hcases.
  set (rs1 := <[i := mkReader Nil (position r)]> (readers s)).
  assert (Hcl : forall p, claims p rs1 =
            claims p (readers s) - (if position r =? p then 1 else 0)).
  { intros p. unfold rs1. rewrite (claims_insert p _ i r _ Hi), Hl. cbn. lia. }
  assert (Hlen1 : len rs1 = len (readers s)).
  { unfold rs1, len. rewrite length_insert. reflexivity. }
  assert (Hpos1 : forall i0 r0, rs1 !! i0 = Some r0 -> live r0 = true ->
            exists i', readers s !! i' = Some r0).
  { intros i0 r0 Hi0 Hl0. unfold rs1 in Hi0.
    destruct (decide (i0 = i)) as [->|Hne].
    - rewrite list_lookup_insert_eq in Hi0 by (eapply lookup_lt_Some; exact Hi).
      injection Hi0 as <-. discriminate.
    - rewrite list_lookup_insert_ne in Hi0 by congruence. eauto. }
  pose proof (claims_member _ i r Hi Hl) as Hmem.
  destruct HC as [H1 H2 H3 H4 H5 H6].
  destruct Hcases as [(e & He & ->)|(Hge & ->)].
  - assert (HC0 : Counted n
        (with_buf (dist (world s))
           (bump (buf (dist (world s)))
              (position r - basePosition (dist (world s))) (-1))) rs1).
    { split; cbn [with_buf basePosition buf nextRefcount]; rewrite ?len_bump.
      - lia.
      - lia.
      - lia.
      - intros i0 r0 Hi0 Hl0. destruct (Hpos1 i0 r0 Hi0 Hl0) as [i' Hi']. eauto.
      - intros j e1 He1.
        apply bump_lookup_inv in He1 as (e0 & He0 & _ & Hr1).
        rewrite Hr1, (H5 j e0 He0), Hcl.
        pose proof (claims_bounds (basePosition (dist (world s)) + Z.of_nat j)
                      (readers s)) as Hb0.
        case_decide;
          destruct (Z.eqb_spec (position r)
                      (basePosition (dist (world s)) + Z.of_nat j)); try lia.
        rewrite add64_id by (unfold int64_range; lia). lia.
      - rewrite H6, Hcl. apply index_lt in He.
        destruct (Z.eqb_spec (position r)
                    (basePosition (dist (world s)) + len (buf (dist (world s)))));
          lia. }
    destruct (Z.eqb_spec (position r - basePosition (dist (world s))) 0) as [H0|H0].
    + destruct (Counted_cleanupOldEvents n
                  (with_dist (world s)
                     (with_buf (dist (world s))
                        (bump (buf (dist (world s)))
                           (position r - basePosition (dist (world s))) (-1))))
                  rs1 Hn HC0) as [HC2 Hh2].
      split; [|exact Hh2]. cbn [world readers].
      eapply Counted_le; [|exact HC2]. lia.
    + split; cbn [world readers dist with_dist].
      * eapply Counted_le; [|exact HC0]. lia.
      * unfold head_claimed. cbn [with_buf buf]. intros e1 He1.
        rewrite bump_lookup_ne in He1 by lia. exact (Hh e1 He1).
  - split; cbn [world readers dist with_dist]; [|exact Hh].
    split; cbn [with_nextRefcount basePosition buf nextRefcount].
    + lia.
    + lia.
    + lia.
    + intros i0 r0 Hi0 Hl0. destruct (Hpos1 i0 r0 Hi0 Hl0) as [i' Hi']. eauto.
    + intros j e1 He1. rewrite (H5 j e1 He1), Hcl.
      apply lookup_lt_Some in He1. unfold len in *.
      destruct (Z.eqb_spec (position r)
                  (basePosition (dist (world s)) + Z.of_nat j)); lia.
    + rewrite H6, Hcl.
      pose proof (claims_bounds (basePosition (dist (world s))
                     + len (buf (dist (world s)))) (readers s)) as Hb0.
      destruct (Z.eqb_spec (position r)
                  (basePosition (dist (world s)) + len (buf (dist (world s)))));
        [|lia].
      rewrite add64_id by (unfold int64_range; lia). lia.
Qed.

Lemma Inv_step (n : Z) (s s1 : System) (op : Op) (ret : Ret) :
  n + 1 < 2 ^ 63 -> Inv n s -> step s op = Some (ret, s1) -> Inv (n + 1) s1.
Proof.
  intros Hn HI. destruct op as [item| |i|i|i]; cbn [step].
  - intros [= <- <-]. apply Inv_Submit, HI.
  - pose proof (Inv_Subscribe n s Hn HI) as H.
    destruct (Subscribe (world s)) as [r w]. intros [= <- <-]. exact H.
  - destruct (readers s !! i) as [r|]; [|discriminate].
    destruct (WaitChan r (world s)) as [c w1|] eqn:Hw; [|discriminate].
    intros [= <- <-]. eapply Inv_WaitChan; eauto.
  - destruct (readers s !! i) as [r|] eqn:Hi; [|discriminate].
    destruct (Consume r (world s)) as [[item r1] w1|] eqn:Hc; [|discriminate].
    intros [= <- <-]. eapply Inv_Consume; eauto. lia.
  - destruct (readers s !! i) as [r|] eqn:Hi; [|discriminate].
    destruct (Unsubscribe r (world s)) as [r1 w1|] eqn:Hu; [|discriminate].
    intros [= <- <-]. eapply Inv_Unsubscribe; eauto. lia.
Qed.

Lemma Inv_exec (ops : list Op) :
  forall (n : Z) (s s1 : System),
    n + len ops < 2 ^ 63 -> Inv n s -> exec s ops = Some s1 -> Inv (n + len ops) s1.
Proof.
  induction ops as [|op ops IH]; intros n s s1 Hn HI; cbn [exec].
  - intros [= <-]. change (len []) with 0. rewrite Z.add_0_r. exact HI.
  - change (len (op :: ops)) with (Z.of_nat (S (length ops))) in *.
    pose proof (len_nonneg ops) as Hl. unfold len in *.
    destruct (step s op) as [[ret s0]|] eqn:Hs; [|discriminate].
    intros He.
    replace (n + Z.of_nat (S (length ops))) with ((n + 1) + Z.of_nat (length ops))
      by lia.
    apply (IH (n + 1) s0 s1); [lia| |exact He].
    eapply Inv_step; [|exact HI|exact Hs]. lia.
Qed.

(** ** Construction *)

Lemma apply_modifiers_spec (fs : list modifier) (ds : Distributor) :
  fold_left (fun ds f => apply_modifier f ds) fs ds =
    mkDistributor (basePosition ds) (buf ds) (nextRefcount ds) (waiters ds)
      (onBufsizeChange ds ++ flat_map pick_onBufsizeChange fs)
      (onSubmit ds ++ flat_map pick_onSubmit fs)
      (onFullyConsumed ds ++ flat_map pick_onFullyConsumed fs).
Proof.
  revert ds. induction fs as [|f fs IH]; intros ds; cbn [fold_left flat_map].
  - rewrite !app_nil_r. destruct ds; reflexivity.
  - rewrite IH. destruct f; cbn; rewrite <- ?app_assoc; reflexivity.
Qed.

Lemma New_from (options : list Options) (ds : Distributor) :
  fold_left (fun ds os => fold_left (fun ds f => apply_modifier f ds) (modify os) ds)
    options ds =
    mkDistributor (basePosition ds) (buf ds) (nextRefcount ds) (waiters ds)
      (onBufsizeChange ds ++ registered pick_onBufsizeChange options)
      (onSubmit ds ++ registered pick_onSubmit options)
      (onFullyConsumed ds ++ registered pick_onFullyConsumed options).
Proof.
  unfold registered. revert ds.
  induction options as [|os options IH]; intros ds; cbn [fold_left flat_map].
  - rewrite !app_nil_r. destruct ds; reflexivity.
  - rewrite IH, apply_modifiers_spec. cbn. rewrite <- !app_assoc. reflexivity.
Qed.

Lemma New_spec (options : list Options) :
  New options =
    mkDistributor 0 [] 0 None
      (registered pick_onBufsizeChange options)
      (registered pick_onSubmit options)
      (registered pick_onFullyConsumed options).
Proof. unfold New. rewrite New_from. reflexivity. Qed.

Lemma New_unused (options : list Options) : unused (New options).
Proof. rewrite New_spec. repeat split. Qed.

Lemma Inv_init (options : list Options) : Inv 0 (init options).
Proof.
  unfold Inv, init. cbn [world readers dist]. rewrite New_spec.
  split; [split|]; cbn; try lia; try discriminate; try reflexivity.
Qed.

Lemma Inv_reachable (options : list Options) (ops : list Op) (s : System) :
  len ops < 2 ^ 63 -> exec (init options) ops = Some s -> Inv (len ops) s.
Proof.
  intros Hn He. apply (Inv_exec ops 0 (init options) s); [lia| |exact He].
  apply Inv_init.
Qed.

(** ** The channel heap *)

Lemma trimmed_chans (w : World) (k : nat) : chans (trimmed w k) = chans w.
Proof. destruct k; reflexivity. Qed.

Lemma trimmed_waiters (w : World) (k : nat) :
  waiters (dist (trimmed w k)) = waiters (dist w).
Proof. destruct k; reflexivity. Qed.

Lemma trimmed_nextRefcount (w : World) (k : nat) :
  nextRefcount (dist (trimmed w k)) = nextRefcount (dist w).
Proof. destruct k; reflexivity. Qed.

Lemma trimmed_callbacks (w : World) (k : nat) :
  onBufsizeChange (dist (trimmed w k)) = onBufsizeChange (dist w) /\
  onSubmit (dist (trimmed w k)) = onSubmit (dist w) /\
  onFullyConsumed (dist (trimmed w k)) = onFullyConsumed (dist w).
Proof. destruct k; repeat split. Qed.

Lemma claim_moved_waiters (w : World) (idx : Z) :
  waiters (dist (claim_moved w idx)) = waiters (dist w).
Proof. unfold claim_moved. cbn. destruct (_ <? _); reflexivity. Qed.

Lemma claim_moved_callbacks (w : World) (idx : Z) :
  onBufsizeChange (dist (claim_moved w idx)) = onBufsizeChange (dist w) /\
  onSubmit (dist (claim_moved w idx)) = onSubmit (dist w) /\
  onFullyConsumed (dist (claim_moved w idx)) = onFullyConsumed (dist w).
Proof. unfold claim_moved. cbn. destruct (_ <? _); repeat split. Qed.

Lemma chans_ok_same (w w1 : World) :
  chans w1 = chans w -> waiters (dist w1) = waiters (dist w) ->
  chans_ok w -> chans_ok w1.
Proof. unfold chans_ok. intros -> ->. auto. Qed.

Lemma is_closed_close (cs : list bool) (c c1 : chan) :
  is_closed (close c cs) c1 =
    if decide (c1 = c /\ (c < length cs)%nat) then true else is_closed cs c1.
Proof.
  unfold is_closed, close. destruct (decide (c1 = c)) as [->|Hne].
  - destruct (decide ((c < length cs)%nat)) as [Hlt|Hge].
    + rewrite list_lookup_insert_eq by exact Hlt.
      rewrite decide_True by auto. reflexivity.
    + rewrite list_insert_ge by lia. rewrite decide_False by tauto. reflexivity.
  - rewrite list_lookup_insert_ne by congruence.
    rewrite decide_False by tauto. reflexivity.
Qed.

Lemma is_closed_lt (cs : list bool) (c : chan) :
  is_closed cs c = true -> (c < length cs)%nat.
Proof.
  unfold is_closed. destruct (cs !! c) eqn:H; [|discriminate].
  intros _. eapply lookup_lt_Some. exact H.
Qed.

Lemma is_closed_app (cs : list bool) (c : chan) (b : bool) :
  is_closed (cs ++ [b]) c =
    if decide (c = length cs) then b else is_closed cs c.
Proof.
  unfold is_closed. destruct (decide (c = length cs)) as [->|Hne].
  - rewrite lookup_app_r by lia. rewrite Nat.sub_diag. reflexivity.
  - destruct (decide ((c < length cs)%nat)) as [Hlt|Hge].
    + rewrite lookup_app_l by exact Hlt. reflexivity.
    + rewrite !lookup_ge_None_2; [reflexivity| lia |rewrite length_app; cbn; lia].
Qed.

Lemma chans_ok_Submit (item : T) (w : World) : chans_ok w -> chans_ok (Submit item w).
Proof.
  intros [H0 Hw].
  destruct ((len (buf (dist w)) =? 0) && (nextRefcount (dist w) =? 0)) eqn:Hc.
  - apply andb_true_iff in Hc as [Hb Hz].
    apply Z.eqb_eq in Hb, Hz. apply len_zero in Hb.
    rewrite (Submit_discard item _ Hb Hz). split; [exact H0 | exact Hw].
  - rewrite (Submit_append item _ Hc). split; cbn [dist chans waiters].
    + destruct (waiters (dist w)) as [c|]; [|exact H0].
      rewrite is_closed_close. case_decide; [reflexivity | exact H0].
    + discriminate.
Qed.

Lemma chans_ok_WaitChan (r : Reader) (w w1 : World) (c : chan) :
  WaitChan r w = Done c w1 -> chans_ok w -> chans_ok w1.
Proof.
  intros Hw [H0 Hok].
  apply WaitChan_inv in Hw as [_ [(_ & _ & ->)|[(_ & _ & ->)|(_ & _ & -> & ->)]]];
    try (split; assumption).
  split; cbn [dist chans with_chans with_dist with_waiters waiters].
  - rewrite is_closed_app. apply is_closed_lt in H0 as Hlt.
    unfold closedChannel in *. rewrite decide_False by lia. exact H0.
  - intros c0 [= <-]. rewrite length_app, is_closed_app, decide_True by reflexivity.
    cbn. split; [lia | reflexivity].
Qed.

Lemma chans_ok_step (s s1 : System) (op : Op) (ret : Ret) :
  step s op = Some (ret, s1) -> chans_ok (world s) -> chans_ok (world s1).
Proof.
  destruct op as [item| |i|i|i]; cbn [step].
  - intros [= <- <-]. apply chans_ok_Submit.
  - intros [= <- <-]. apply chans_ok_same; reflexivity.
  - destruct (readers s !! i) as [r|]; [|discriminate].
    destruct (WaitChan r (world s)) as [c w1|] eqn:Hw; [|discriminate].
    intros [= <- <-]. eapply chans_ok_WaitChan. exact Hw.
  - destruct (readers s !! i) as [r|]; [|discriminate].
    destruct (Consume r (world s)) as [[item r1] w1|] eqn:Hc; [|discriminate].
    intros [= <- <-]. cbn [world].
    apply Consume_inv in Hc as (_ & e & _ & _ & _ & ->).
    rewrite cleanupOldEvents_spec. apply chans_ok_same.
    + rewrite trimmed_chans. reflexivity.
    + rewrite trimmed_waiters, claim_moved_waiters. reflexivity.
  - destruct (readers s !! i) as [r|]; [|discriminate].
    destruct (Unsubscribe r (world s)) as [r1 w1|] eqn:Hu; [|discriminate].
    intros [= <- <-]. cbn [world].
    apply Unsubscribe_inv in Hu as (_ & _ & [(e & _ & Hw)|(_ & ->)]).
    + cbn zeta in Hw. subst w1. destruct (_ =? 0).
      * rewrite cleanupOldEvents_spec. apply chans_ok_same.
        -- rewrite trimmed_chans. reflexivity.
        -- rewrite trimmed_waiters. reflexivity.
      * apply chans_ok_same; reflexivity.
    + apply chans_ok_same; reflexivity.
Qed.

Lemma chans_ok_exec (ops : list Op) :
  forall s s1, exec s ops = Some s1 -> chans_ok (world s) -> chans_ok (world s1).
Proof.
  induction ops as [|op ops IH]; intros s s1; cbn [exec].
  - intros [= <-]. auto.
  - destruct (step s op) as [[ret s0]|] eqn:Hs; [|discriminate].
    intros He Hok. eapply IH; [exact He|]. eapply chans_ok_step; eauto.
Qed.

Lemma chans_ok_init (options : list Options) : chans_ok (world (init options)).
Proof.
  unfold chans_ok, init. cbn [world chans dist]. rewrite New_spec. cbn.
  split; [reflexivity | discriminate].
Qed.

(** ** Waiting and waking *)

Lemma WaitChan_unready (r : Reader) (w : World) :
  d r = Ptr -> unready r w ->
  WaitChan r w =
    match waiters (dist w) with
    | Some c => Done c w
    | None =>
        Done (length (chans w))
          (with_chans (with_dist w (with_waiters (dist w) (Some (length (chans w)))))
             (chans w ++ [false]))
    end.
Proof.
  unfold unready, WaitChan. intros -> Hu.
  destruct (Z.ltb_spec (sub64 (position r) (basePosition (dist w)))
              (len (buf (dist w)))); [lia | reflexivity].
Qed.

Lemma WaitChan_ready (r : Reader) (w : World) :
  d r = Ptr -> ~ unready r w -> WaitChan r w = Done closedChannel w.
Proof.
  unfold unready, WaitChan. intros -> Hu.
  destruct (Z.ltb_spec (sub64 (position r) (basePosition (dist w)))
              (len (buf (dist w)))); [reflexivity | lia].
Qed.

Lemma WaitChan_shared (r1 r2 : Reader) (w : World) :
  chans_ok w -> d r1 = Ptr -> d r2 = Ptr -> unready r1 w -> unready r2 w ->
  exists c w2,
    WaitChan r1 w = Done c w2 /\ WaitChan r2 w2 = Done c w2 /\
    waiters (dist w2) = Some c /\ is_closed (chans w2) c = false /\
    chans_ok w2 /\
    buf (dist w2) = buf (dist w) /\ nextRefcount (dist w2) = nextRefcount (dist w).
Proof.
  intros Hok H1 H2 Hu1 Hu2.
  pose proof (WaitChan_unready r1 w H1 Hu1) as Hw1.
  destruct (waiters (dist w)) as [c|] eqn:Hwt.
  - exists c, w. split; [exact Hw1|].
    rewrite (WaitChan_unready r2 w H2 Hu2), Hwt.
    pose proof Hok as [H0 Hc]. destruct (Hc c Hwt) as [_ Hopen].
    split; [reflexivity|].
    split; [reflexivity|]. split; [exact Hopen|]. split; [exact Hok|].
    split; reflexivity.
  - eexists _, _. split; [exact Hw1|].
    assert (Hok2 : chans_ok
      (with_chans (with_dist w (with_waiters (dist w) (Some (length (chans w)))))
         (chans w ++ [false]))).
    { eapply chans_ok_WaitChan; [exact Hw1 | exact Hok]. }
    split.
    { rewrite WaitChan_unready; [reflexivity | exact H2 | exact Hu2]. }
    pose proof Hok2 as [H0 Hc].
    destruct (Hc (length (chans w)) eq_refl) as [_ Hopen].
    split; [reflexivity|]. split; [exact Hopen|]. split; [exact Hok2|].
    split; reflexivity.
Qed.

Lemma Submit_wakes (item : T) (w : World) (c : chan) :
  chans_ok w -> waiters (dist w) = Some c ->
  (len (buf (dist w)) =? 0) && (nextRefcount (dist w) =? 0) = false ->
  is_closed (chans (Submit item w)) c = true /\
  waiters (dist (Submit item w)) = None /\
  length (chans (Submit item w)) = length (chans w).
Proof.
  intros [H0 Hc] Hwt Happ. rewrite (Submit_append item w Happ).
  cbn [dist chans waiters]. rewrite Hwt.
  destruct (Hc c Hwt) as [Hlt _].
  rewrite is_closed_close, decide_True by auto.
  unfold close. rewrite length_insert. auto.
Qed.

Lemma WaitChan_fresh (r : Reader) (w : World) :
  chans_ok w -> waiters (dist w) = None -> d r = Ptr -> unready r w ->
  exists w1,
    WaitChan r w = Done (length (chans w)) w1 /\
    is_closed (chans w1) (length (chans w)) = false /\
    waiters (dist w1) = Some (length (chans w)) /\
    forall c, (c < length (chans w))%nat ->
      is_closed (chans w1) c = is_closed (chans w) c.
Proof.
  intros Hok Hwt Hd Hu. eexists. rewrite (WaitChan_unready r w Hd Hu), Hwt.
  split; [reflexivity|]. cbn [chans with_chans dist with_dist with_waiters waiters].
  split; [|split; [reflexivity|]].
  - rewrite is_closed_app, decide_True by reflexivity. reflexivity.
  - intros c Hc. rewrite is_closed_app, decide_False by lia. reflexivity.
Qed.

(** ** Every submitted item is retained or reported once *)




Lemma claim_moved_values (w : World) (idx : Z) :
  map value (buf (dist (claim_moved w idx))) = map value (buf (dist w)).
Proof.
  unfold claim_moved. cbn [dist with_dist with_buf buf].
  destruct (_ <? _); cbn [with_buf with_nextRefcount buf];
    rewrite ?bump_value; reflexivity.
Qed.


Lemma submitted_app (a b : list Op) : submitted (a ++ b) = submitted a ++ submitted b.
Proof.
  induction a as [|op a IH]; [reflexivity|].
  destruct op; cbn; rewrite IH; reflexivity.
Qed.


Lemma callbacks_step (s s1 : System) (op : Op) (ret : Ret) :
  step s op = Some (ret, s1) ->
  onBufsizeChange (dist (world s1)) = onBufsizeChange (dist (world s)) /\
  onSubmit (dist (world s1)) = onSubmit (dist (world s)) /\
  onFullyConsumed (dist (world s1)) = onFullyConsumed (dist (world s)).
Proof.
  destruct op as [item| |i|i|i]; cbn [step].
  - intros [= <- <-]. cbn [world].
    destruct ((len (buf (dist (world s))) =? 0)
              && (nextRefcount (dist (world s)) =? 0)) eqn:Hc.
    + apply andb_true_iff in Hc as [Hb Hz].
      apply Z.eqb_eq in Hb, Hz. apply len_zero in Hb.
      rewrite (Submit_discard item _ Hb Hz). repeat split.
    + rewrite (Submit_append item _ Hc). repeat split.
  - intros [= <- <-]. repeat split.
  - destruct (readers s !! i) as [r|]; [|discriminate].
    destruct (WaitChan r (world s)) as [c w1|] eqn:Hw; [|discriminate].
    intros [= <- <-]. cbn [world].
    apply WaitChan_inv in Hw as [_ [(_ & _ & ->)|[(_ & _ & ->)|(_ & _ & _ & ->)]]];
      repeat split.
  - destruct (readers s !! i) as [r|]; [|discriminate].
    destruct (Consume r (world s)) as [[item r1] w1|] eqn:Hc; [|discriminate].
    intros [= <- <-]. cbn [world].
    apply Consume_inv in Hc as (_ & e & _ & _ & _ & ->).
    rewrite cleanupOldEvents_spec.
    destruct (trimmed_callbacks
                (claim_moved (world s)
                   (sub64 (position r) (basePosition (dist (world s)))))
                (leading_zeros
                   (buf (dist (claim_moved (world s)
                      (sub64 (position r) (basePosition (dist (world s))))))))) 
      as (-> & -> & ->).
    apply claim_moved_callbacks.
  - destruct (readers s !! i) as [r|]; [|discriminate].
    destruct (Unsubscribe r (world s)) as [r1 w1|] eqn:Hu; [|discriminate].
    intros [= <- <-]. cbn [world].
    apply Unsubscribe_inv in Hu as (_ & _ & [(e & _ & Hw)|(_ & ->)]);
      [|repeat split].
    cbn zeta in Hw. subst w1. destruct (_ =? 0); [|repeat split].
    rewrite cleanupOldEvents_spec.
    match goal with |- context [trimmed ?w ?k] =>
      destruct (trimmed_callbacks w k) as (-> & -> & ->) end.
    repeat split.
Qed.

Lemma callbacks_exec (ops : list Op) :
  forall s s1, exec s ops = Some s1 ->
  onBufsizeChange (dist (world s1)) = onBufsizeChange (dist (world s)) /\
  onSubmit (dist (world s1)) = onSubmit (dist (world s)) /\
  onFullyConsumed (dist (world s1)) = onFullyConsumed (dist (world s)).
Proof.
  induction ops as [|op ops IH]; intros s s1; cbn [exec].
  - intros [= <-]. repeat split.
  - destruct (step s op) as [[ret s0]|] eqn:Hs; [|discriminate].
    intros He. destruct (IH _ _ He) as (-> & -> & ->).
    eapply callbacks_step. exact Hs.
Qed.

(** ** What a Reader has still to read *)

Lemma unread_live (i : nat) (s : System) (r : Reader) :
  readers s !! i = Some r -> live r = true ->
  unread i s =
    map value
      (drop (Z.to_nat (position r - basePosition (dist (world s))))
         (buf (dist (world s)))).
Proof. intros Hi Hl. unfold unread. rewrite Hi, Hl. reflexivity. Qed.

Lemma unread_dead (i : nat) (s : System) (r : Reader) :
  readers s !! i = Some r -> live r = false -> unread i s = [].
Proof. intros Hi Hl. unfold unread. rewrite Hi, Hl. reflexivity. Qed.

Lemma unread_none (i : nat) (s : System) :
  readers s !! i = None -> unread i s = [].
Proof. intros Hi. unfold unread. rewrite Hi. reflexivity. Qed.

Lemma trim_view (n : Z) (w : World) (rs : list Reader) (p : Z) :
  n < 2 ^ 63 -> Counted n (dist w) rs ->
  basePosition (dist (cleanupOldEvents w)) <= p ->
  drop (Z.to_nat (p - basePosition (dist (cleanupOldEvents w))))
    (buf (dist (cleanupOldEvents w)))
  = drop (Z.to_nat (p - basePosition (dist w))) (buf (dist w)).
Proof.
  intros Hn [H1 H2 H3 H4 H5 H6]. rewrite cleanupOldEvents_spec.
  pose proof (leading_zeros_le (buf (dist w))) as Hle.
  destruct (leading_zeros (buf (dist w))) as [|k]; [reflexivity|].
  unfold trimmed. cbn [dist with_basePosition with_buf buf basePosition].
  rewrite add64_id by (unfold int64_range, len in *; lia).
  intros Hp. rewrite drop_drop. f_equal. lia.
Qed.

Lemma live_Ptr (r : Reader) : live r = true <-> d r = Ptr.
Proof. unfold live. destruct (d r); split; congruence. Qed.

(** A Reader that was unsubscribed stays so, reads nothing and is sent
    nothing. *)
Lemma dead_step (i : nat) (s s1 : System) (op : Op) (ret : Ret) (r : Reader) :
  readers s !! i = Some r -> live r = false -> step s op = Some (ret, s1) ->
  readers s1 !! i = Some r /\ consumed_by i s [op] = [].
Proof.
  intros Hi Hl Hs. assert (Hd : d r = Nil).
  { unfold live in Hl. destruct (d r); congruence. }
  cbn [consumed_by]. rewrite Hs.
  destruct op as [item| |j|j|j]; cbn [step] in Hs.
  - injection Hs as <- <-. auto.
  - injection Hs as <- <-. cbn. split; [|reflexivity].
    apply lookup_app_l_Some. exact Hi.
  - destruct (readers s !! j) as [rj|]; [|discriminate].
    destruct (WaitChan rj (world s)) as [c w1|]; [|discriminate].
    injection Hs as <- <-. auto.
  - destruct (readers s !! j) as [rj|] eqn:Hj; [|discriminate].
    destruct (Consume rj (world s)) as [[item r1] w1|] eqn:Hc; [|discriminate].
    injection Hs as <- <-. cbn [readers].
    destruct (decide (j = i)) as [->|Hne].
    + exfalso. apply Consume_inv in Hc as [Hp _]. congruence.
    + rewrite list_lookup_insert_ne by exact Hne.
      apply Nat.eqb_neq in Hne. rewrite Hne. auto.
  - destruct (readers s !! j) as [rj|] eqn:Hj; [|discriminate].
    destruct (Unsubscribe rj (world s)) as [r1 w1|] eqn:Hu; [|discriminate].
    injection Hs as <- <-. cbn [readers].
    destruct (decide (j = i)) as [->|Hne].
    + exfalso. apply Unsubscribe_inv in Hu as [Hp _]. congruence.
    + rewrite list_lookup_insert_ne by exact Hne. auto.
Qed.

Lemma dead_run (i : nat) (ops : list Op) :
  forall (s : System) (r : Reader),
    readers s !! i = Some r -> live r = false ->
    consumed_by i s ops = [] /\ submitted_to i s ops = [] /\
    forall s1, exec s ops = Some s1 -> subscribed i s1 = false.
Proof.
  induction ops as [|op ops IH]; intros s r Hi Hl.
  - cbn. split; [reflexivity|]. split; [reflexivity|].
    intros s1 [= <-]. unfold subscribed. rewrite Hi. exact Hl.
  - cbn [consumed_by submitted_to exec].
    destruct (step s op) as [[ret s0]|] eqn:Hs;
      [|split; [reflexivity|]; split; [reflexivity | discriminate]].
    destruct (dead_step i s s0 op ret r Hi Hl Hs) as [Hi0 Hc0].
    destruct (IH s0 r Hi0 Hl) as (Hc & Hb & Hsub).
    cbn [consumed_by] in Hc0. rewrite Hs in Hc0.
    assert (Hsubs : subscribed i s = false).
    { unfold subscribed. rewrite Hi. exact Hl. }
    rewrite Hsubs, Hc, Hb. split; [|split; [|exact Hsub]].
    + destruct op as [| | |j|]; try reflexivity.
      destruct ret; try reflexivity.
      destruct (Nat.eqb j i); [discriminate | reflexivity].
    + destruct op; reflexivity.
Qed.

Lemma consumed_by_cons (i : nat) (s s0 : System) (op : Op) (ret : Ret) (ops : list Op) :
  step s op = Some (ret, s0) ->
  consumed_by i s (op :: ops) = consumed_by i s [op] ++ consumed_by i s0 ops.
Proof.
  intros Hs. cbn [consumed_by]. rewrite Hs.
  destruct op as [| | |j|]; try reflexivity.
  destruct ret; try reflexivity. destruct (Nat.eqb j i); reflexivity.
Qed.

Lemma submitted_to_cons (i : nat) (s s0 : System) (op : Op) (ret : Ret)
    (ops : list Op) :
  step s op = Some (ret, s0) ->
  submitted_to i s (op :: ops) = submitted_to i s [op] ++ submitted_to i s0 ops.
Proof.
  intros Hs. cbn [submitted_to]. rewrite Hs.
  destruct op; try reflexivity. destruct (subscribed i s); reflexivity.
Qed.

Lemma absent_step (i : nat) (s s0 : System) (op : Op) (ret : Ret) :
  step s op = Some (ret, s0) -> readers s0 !! i = None ->
  readers s !! i = None /\ consumed_by i s [op] = [] /\ submitted_to i s [op] = [].
Proof.
  intros Hs H0.
  assert (Hi : readers s !! i = None).
  { apply lookup_ge_None in H0. apply lookup_ge_None.
    destruct op as [item| |j|j|j]; cbn [step] in Hs.
    - injection Hs as <- <-. exact H0.
    - injection Hs as <- <-. cbn in H0. rewrite length_app in H0. lia.
    - destruct (readers s !! j); [|discriminate].
      destruct (WaitChan _ _); [|discriminate]. injection Hs as <- <-. exact H0.
    - destruct (readers s !! j); [|discriminate].
      destruct (Consume _ _) as [[? ?] ?|]; [|discriminate].
      injection Hs as <- <-. cbn in H0. rewrite length_insert in H0. exact H0.
    - destruct (readers s !! j); [|discriminate].
      destruct (Unsubscribe _ _); [|discriminate].
      injection Hs as <- <-. cbn in H0. rewrite length_insert in H0. exact H0. }
  split; [exact Hi|]. cbn [consumed_by submitted_to]. rewrite Hs.
  unfold subscribed. rewrite Hi. split.
  - destruct op as [| | |j|]; try reflexivity.
    destruct ret; try reflexivity.
    destruct (Nat.eqb_spec j i) as [->|]; [|reflexivity].
    cbn [step] in Hs. rewrite Hi in Hs. discriminate.
  - destruct op; reflexivity.
Qed.

Lemma fifo_step (n : Z) (i : nat) (s s0 : System) (op : Op) (ret : Ret)
    (r0 : Reader) :
  n + 1 < 2 ^ 63 -> Inv n s -> step s op = Some (ret, s0) ->
  readers s0 !! i = Some r0 -> live r0 = true ->
  unread i s ++ submitted_to i s [op] = consumed_by i s [op] ++ unread i s0.
Proof.
  intros Hn HI Hs Hi0 Hl0.
  pose proof (Inv_step n s s0 op ret Hn HI Hs) as [HC0 _].
  destruct HI as [HC Hh].
  rewrite (unread_live i s0 r0 Hi0 Hl0).
  cbn [consumed_by submitted_to]. rewrite Hs.
  destruct op as [item| |j|j|j]; cbn [step] in Hs.
  - (* Submit *)
    injection Hs as <- <-. cbn [readers world] in *.
    unfold subscribed. rewrite Hi0, Hl0.
    rewrite (unread_live i s r0 Hi0 Hl0). cbn [app].
    destruct HC as [H1 H2 H3 H4 H5 H6]. pose proof (H4 i r0 Hi0 Hl0) as Hp.
    pose proof (claims_member _ i r0 Hi0 Hl0) as Hm.
    assert (Happ : (len (buf (dist (world s))) =? 0)
                   && (nextRefcount (dist (world s)) =? 0) = false).
    { apply andb_false_iff.
      destruct (Z.eqb_spec (len (buf (dist (world s)))) 0) as [Hz|Hz]; [|auto].
      right. apply Z.eqb_neq. rewrite H6.
      replace (basePosition (dist (world s)) + len (buf (dist (world s))))
        with (position r0) by lia. lia. }
    rewrite (Submit_append item _ Happ). cbn [dist basePosition buf].
    rewrite drop_app_le by (unfold len in *; lia).
    rewrite map_app. reflexivity.
  - (* Subscribe *)
    injection Hs as <- <-. cbn [readers world] in *. rewrite app_nil_r. cbn [app].
    apply lookup_app_Some in Hi0 as [Hi|[Hge Hi]].
    + rewrite (unread_live i s r0 Hi Hl0). reflexivity.
    + apply list_lookup_singleton_Some in Hi as [_ <-].
      rewrite unread_none by (apply lookup_ge_None; exact Hge).
      cbn [position dist with_dist with_nextRefcount basePosition buf].
      destruct HC as [H1 H2 H3 H4 H5 H6].
      pose proof (len_nonneg (buf (dist (world s)))) as Hlen.
      rewrite add64_id by (unfold int64_range; lia).
      rewrite drop_ge by (unfold len; lia). reflexivity.
  - (* WaitChan *)
    destruct (readers s !! j) as [rj|]; [|discriminate].
    destruct (WaitChan rj (world s)) as [c w1|] eqn:Hw; [|discriminate].
    injection Hs as <- <-. cbn [readers world] in *. rewrite app_nil_r. cbn [app].
    rewrite (unread_live i s r0 Hi0 Hl0).
    apply WaitChan_inv in Hw as [_ [(_ & _ & ->)|[(_ & _ & ->)|(_ & _ & _ & ->)]]];
      reflexivity.
  - (* Consume *)
    destruct (readers s !! j) as [rj|] eqn:Hj; [|discriminate].
    destruct (Consume rj (world s)) as [[item r1] w1|] eqn:Hc; [|discriminate].
    injection Hs as <- <-. cbn [readers world] in *. rewrite app_nil_r.
    apply Consume_inv in Hc as (Hd & e & He & -> & -> & ->).
    apply live_Ptr in Hd as Hlj.
    assert (Hn' : n < 2 ^ 63) by lia.
    pose proof (Counted_claim_moved n _ _ j rj e Hn' HC Hj Hlj He) as HC1.
    destruct (Counted_index n _ _ j rj Hn' HC Hj Hlj) as [Hsub Hidx].
    pose proof (cnt_position _ _ _ HC0 i r0 Hi0 Hl0) as [Hp0 _].
    cbn [world dist] in Hp0.
    rewrite (trim_view n _ _ (position r0) Hn' HC1 Hp0).
    replace (basePosition (dist (claim_moved (world s)
               (sub64 (position rj) (basePosition (dist (world s)))))))
      with (basePosition (dist (world s)))
      by (unfold claim_moved; cbn; destruct (_ <? _); reflexivity).
    rewrite <- skipn_map, claim_moved_values, skipn_map.
    destruct (Nat.eqb_spec j i) as [->|Hne].
    + rewrite list_lookup_insert_eq in Hi0 by (eapply lookup_lt_Some; exact Hj).
      injection Hi0 as <-. cbn [position].
      rewrite (unread_live i s rj Hj Hlj).
      rewrite Hsub in He. apply index_Some in He as [H0 He].
      rewrite (drop_S _ _ _ He). cbn [map app].
      destruct HC as [H1 H2 H3 H4 H5 H6]. pose proof (H4 i rj Hj Hlj) as Hp.
      rewrite add64_id by (unfold int64_range; lia).
      do 3 f_equal. lia.
    + rewrite list_lookup_insert_ne in Hi0 by exact Hne.
      rewrite (unread_live i s r0 Hi0 Hl0). reflexivity.
  - (* Unsubscribe *)
    destruct (readers s !! j) as [rj|] eqn:Hj; [|discriminate].
    destruct (Unsubscribe rj (world s)) as [r1 w1|] eqn:Hu; [|discriminate].
    injection Hs as <- <-. cbn [readers world] in *. rewrite app_nil_r. cbn [app].
    apply Unsubscribe_inv in Hu as (Hd & -> & Hcases). cbn zeta in Hcases.
    destruct (decide (j = i)) as [->|Hne].
    { rewrite list_lookup_insert_eq in Hi0 by (eapply lookup_lt_Some; exact Hj).
      injection Hi0 as <-. discriminate. }
    rewrite list_lookup_insert_ne in Hi0 by exact Hne.
    rewrite (unread_live i s r0 Hi0 Hl0).
    destruct Hcases as [(e & He & ->)|(_ & ->)]; [|reflexivity].
    destruct (_ =? 0) eqn:Hz.
    + assert (Hn' : n < 2 ^ 63) by lia.
      assert (Hi1 : <[j := mkReader Nil (position rj)]> (readers s) !! i = Some r0).
      { rewrite list_lookup_insert_ne by exact Hne. exact Hi0. }
      pose proof (cnt_position _ _ _ HC0 i r0 Hi1 Hl0) as [Hp0 _].
      cbn [world] in Hp0.
      (* the counts before trimming are those of the released claim *)
      apply live_Ptr in Hd as Hlj.
      set (w0 := with_dist (world s)
                   (with_buf (dist (world s))
                      (bump (buf (dist (world s)))
                         (sub64 (position rj) (basePosition (dist (world s))))
                         (-1)))) in *.
      assert (Hview : forall m, map value (drop m (buf (dist w0)))
                               = map value (drop m (buf (dist (world s))))).
      { intros m. unfold w0. cbn [dist with_dist with_buf buf].
        rewrite <- !skipn_map, bump_value. reflexivity. }
      rewrite <- Hview.
      change (basePosition (dist (world s))) with (basePosition (dist w0)).
      f_equal.
      rewrite cleanupOldEvents_spec in *.
      pose proof (leading_zeros_le (buf (dist w0))) as Hle.
      destruct (leading_zeros (buf (dist w0))) as [|k]; [reflexivity|].
      unfold trimmed in *.
      cbn [dist with_basePosition with_buf buf basePosition] in *.
      destruct HC as [H1 H2 H3 H4 H5 H6].
      assert (Hlen0 : len (buf (dist w0)) = len (buf (dist (world s)))).
      { unfold w0. cbn. apply len_bump. }
      change (basePosition (dist w0)) with (basePosition (dist (world s))) in *.
      rewrite add64_id in * by (unfold int64_range, len in *; lia).
      rewrite drop_drop. f_equal. lia.
    + cbn [dist with_dist with_buf buf basePosition].
      rewrite <- !skipn_map, bump_value. reflexivity.
Qed.

Lemma fifo_run (i : nat) (ops : list Op) :
  forall (n : Z) (s s1 : System),
    n + len ops < 2 ^ 63 -> Inv n s -> exec s ops = Some s1 ->
    consumed_by i s ops `prefix_of` unread i s ++ submitted_to i s ops /\
    (subscribed i s1 = true ->
     consumed_by i s ops ++ unread i s1 = unread i s ++ submitted_to i s ops).
Proof.
  induction ops as [|op ops IH]; intros n s s1 Hn HI.
  - cbn. intros [= <-]. rewrite app_nil_r. split; [apply prefix_nil | reflexivity].
  - cbn [exec]. destruct (step s op) as [[ret s0]|] eqn:Hs; [|discriminate].
    intros He.
    change (len (op :: ops)) with (Z.of_nat (S (length ops))) in Hn.
    assert (Hn1 : n + 1 < 2 ^ 63) by lia.
    assert (Hn2 : (n + 1) + len ops < 2 ^ 63) by (unfold len; lia).
    pose proof (Inv_step n s s0 op ret Hn1 HI Hs) as HI0.
    destruct (IH (n + 1) s0 s1 Hn2 HI0 He) as [IHp IHe].
    rewrite (consumed_by_cons i s s0 op ret ops Hs),
      (submitted_to_cons i s s0 op ret ops Hs).
    destruct (readers s0 !! i) as [r0|] eqn:Hi0.
    + destruct (live r0) eqn:Hl0.
      * pose proof (fifo_step n i s s0 op ret r0 Hn1 HI Hs Hi0 Hl0) as Hst.
        rewrite app_assoc, Hst, <- !app_assoc. split.
        -- apply prefix_app. exact IHp.
        -- intros Hsub. rewrite (IHe Hsub). reflexivity.
      * destruct (dead_run i ops s0 r0 Hi0 Hl0) as (Hc & Hb & Hsub).
        rewrite Hc, Hb, !app_nil_r. split.
        -- destruct (readers s !! i) as [r|] eqn:Hi.
           ++ destruct (live r) eqn:Hl.
              ** (* the call unsubscribed the Reader: it consumed nothing *)
                 assert (Hnil : consumed_by i s [op] = []).
                 { cbn [consumed_by]. rewrite Hs.
                   destruct op as [| | |j|]; try reflexivity.
                   destruct ret; try reflexivity.
                   destruct (Nat.eqb_spec j i) as [->|]; [|reflexivity].
                   exfalso. cbn [step] in Hs. rewrite Hi in Hs.
                   destruct (Consume r (world s)) as [[it r1] w1|] eqn:Hcs;
                     [|discriminate].
                   injection Hs as _ <-. cbn [readers] in Hi0.
                   rewrite list_lookup_insert_eq in Hi0
                     by (eapply lookup_lt_Some; exact Hi).
                   injection Hi0 as <-.
                   apply Consume_inv in Hcs as (_ & e & _ & _ & -> & _).
                   discriminate. }
                 rewrite Hnil. apply prefix_nil.
              ** destruct (dead_step i s s0 op ret r Hi Hl Hs) as [_ ->].
                 apply prefix_nil.
           ++ (* the handle did not exist and now does, unsubscribed: impossible
                 for Subscribe, which returns a live Reader *)
              assert (Hnil : consumed_by i s [op] = []).
              { cbn [consumed_by]. rewrite Hs.
                destruct op as [| | |j|]; try reflexivity.
                destruct ret; try reflexivity.
                destruct (Nat.eqb_spec j i) as [->|]; [|reflexivity].
                cbn [step] in Hs. rewrite Hi in Hs. discriminate. }
              rewrite Hnil. apply prefix_nil.
        -- intros Habs. rewrite (Hsub s1 He) in Habs. discriminate.
      + destruct (absent_step i s s0 op ret Hs Hi0) as (Hi & -> & ->).
        rewrite (unread_none i s Hi). rewrite (unread_none i s0 Hi0) in *.
        cbn [app] in *. split; [exact IHp | exact IHe].
Qed.

(** ** The slots after a claim has moved *)

Lemma claim_moved_slots (w : World) (idx : Z) (e : eventInfo) :
  index (buf (dist w)) idx = Some e ->
  let mid := claim_moved w idx in
  basePosition (dist mid) = basePosition (dist w) /\
  length (buf (dist mid)) = length (buf (dist w)) /\
  buf (dist mid) !! Z.to_nat idx = Some (mkEventInfo (add64 (refcount e) (-1)) (value e)) /\
  (forall j, j <> Z.to_nat idx -> j <> Z.to_nat (idx + 1) ->
     buf (dist mid) !! j = buf (dist w) !! j) /\
  (forall e1, buf (dist w) !! Z.to_nat (idx + 1) = Some e1 ->
     buf (dist mid) !! Z.to_nat (idx + 1)
       = Some (mkEventInfo (add64 (refcount e1) 1) (value e1)) /\
     nextRefcount (dist mid) = nextRefcount (dist w)) /\
  (buf (dist w) !! Z.to_nat (idx + 1) = None ->
     nextRefcount (dist mid) = add64 (nextRefcount (dist w)) 1).
Proof.
  intros He. pose proof (index_lt _ _ _ He) as Hlt. cbn zeta.
  unfold claim_moved. cbn [dist with_dist with_buf buf]. rewrite len_bump.
  pose proof (bump_lookup_eq _ _ (-1) _ He) as Hself.
  destruct (Z.ltb_spec (idx + 1) (len (buf (dist w)))) as [Hnext|Hlast];
    cbn [with_buf with_nextRefcount basePosition buf nextRefcount].
  - split; [reflexivity|]. split; [rewrite !bump_length; reflexivity|].
    split; [rewrite bump_lookup_ne by lia; exact Hself|].
    split; [intros j H1 H2; rewrite !bump_lookup_ne by assumption; reflexivity|].
    split.
    + intros e1 He1. split; [|reflexivity].
      apply (bump_lookup_eq (bump (buf (dist w)) idx (-1)) (idx + 1) 1 e1).
      apply index_Some. split; [lia|]. rewrite bump_lookup_ne by lia. exact He1.
    + intros Hnone. apply lookup_ge_None in Hnone. unfold len in *. lia.
  - split; [reflexivity|]. split; [rewrite !bump_length; reflexivity|].
    split; [exact Hself|].
    split; [intros j H1 H2; rewrite !bump_lookup_ne by assumption; reflexivity|].
    split.
    + intros e1 He1. apply lookup_lt_Some in He1. unfold len in *. lia.
    + reflexivity.
Qed.

Lemma head_claimed_no_trim (w : World) :
  head_claimed (dist w) -> cleanupOldEvents w = w.
Proof.
  intros Hh. rewrite cleanupOldEvents_spec.
  replace (leading_zeros (buf (dist w))) with 0%nat; [reflexivity|].
  symmetry. apply leading_zeros_head. exact Hh.
Qed.

Lemma Inv_head_positive (n : Z) (s : System) (e : eventInfo) :
  Inv n s -> buf (dist (world s)) !! 0%nat = Some e -> 0 < refcount e.
Proof.
  intros [HC Hh] He. pose proof (Hh e He) as Hne.
  rewrite (cnt_refcount _ _ _ HC 0%nat e He) in *.
  pose proof (claims_bounds (basePosition (dist (world s)) + Z.of_nat 0) (readers s)).
  lia.
Qed.

(** * The properties *)

(** C1.  A [Consume] on a live Reader whose index [position - basePosition]
    is a valid index of the backlog returns the value of that slot, advances
    the position by one and, before trimming, has decremented the refcount of
    that slot and incremented the refcount of the next slot, or
    [nextRefcount] when there is no next slot; every other slot is untouched.
    Consequently, in every program, the items returned by the [Consume] calls
    on one Reader are, in order, a prefix of the items submitted while the
    Reader was subscribed (one item per call), and what the Reader has not
    consumed yet is exactly what the backlog retains for it. *)
Theorem Consume_in_order :
  (forall (r : Reader) (w : World) (e : eventInfo),
     d r = Ptr ->
     index (buf (dist w)) (sub64 (position r) (basePosition (dist w))) = Some e ->
     let idx := sub64 (position r) (basePosition (dist w)) in
     exists mid : World,
       Consume r w =
         Done (value e, mkReader Ptr (add64 (position r) 1)) (cleanupOldEvents mid) /\
       basePosition (dist mid) = basePosition (dist w) /\
       length (buf (dist mid)) = length (buf (dist w)) /\
       buf (dist mid) !! Z.to_nat idx
         = Some (mkEventInfo (add64 (refcount e) (-1)) (value e)) /\
       (forall j, j <> Z.to_nat idx -> j <> Z.to_nat (idx + 1) ->
          buf (dist mid) !! j = buf (dist w) !! j) /\
       (forall e1, buf (dist w) !! Z.to_nat (idx + 1) = Some e1 ->
          buf (dist mid) !! Z.to_nat (idx + 1)
            = Some (mkEventInfo (add64 (refcount e1) 1) (value e1)) /\
          nextRefcount (dist mid) = nextRefcount (dist w)) /\
       (buf (dist w) !! Z.to_nat (idx + 1) = None ->
          nextRefcount (dist mid) = add64 (nextRefcount (dist w)) 1)) /\
  (forall (options : list Options) (ops : list Op) (s : System) (i : nat),
     len ops < 2 ^ 63 -> exec (init options) ops = Some s ->
     consumed_by i (init options) ops `prefix_of` submitted_to i (init options) ops /\
     (subscribed i s = true ->
      consumed_by i (init options) ops ++ unread i s
        = submitted_to i (init options) ops)).
Proof.
  split.
  - intros r w e Hd He idx. exists (claim_moved w idx). split.
    + apply Consume_Done; assumption.
    + apply (claim_moved_slots w idx e He).
  - intros options ops s i Hn He.
    destruct (fifo_run i ops 0 (init options) s ltac:(lia) (Inv_init options) He)
      as [Hp Heq].
    rewrite (unread_none i (init options)) in * by reflexivity.
    split; [exact Hp | exact Heq].
Qed.


(** C3 (the code departs from it).  After [Subscribe; Submit item], a
    [Consume] of the primary variant advances the Reader to position 1, while
    [EventReader.Consume] returns the same item and leaves the same world but
    keeps the Reader at position 0: the two variants are not duplicates.  The
    stale EventReader is then reported ready with nothing to read, and its
    next [Consume] or [Unsubscribe] panics. *)
Theorem EventReader_Consume_keeps_position (item : T) :
  let s2 := mkSystem (Submit item (snd (Subscribe (world (init [])))))
              [fst (Subscribe (world (init [])))] in
  exists s3 s3',
    step s2 (OpConsume 0) = Some (RetItem item, s3) /\
    EventDistributor_step s2 (OpConsume 0) = Some (RetItem item, s3') /\
    world s3' = world s3 /\
    readers s3 = [mkReader Ptr 1] /\
    readers s3' = [mkReader Ptr 0] /\
    (exists c w, WaitChan (mkReader Ptr 1) (world s3) = Done c w /\
                 is_closed (chans w) c = false) /\
    EventReader_WaitChan (mkReader Ptr 0) (world s3') = Done closedChannel (world s3') /\
    EventReader_Consume (mkReader Ptr 0) (world s3') = Panic (world s3') /\
    EventReader_Unsubscribe (mkReader Ptr 0) (world s3') = Panic (world s3').
Proof.
  cbn zeta. eexists _, _.
  split; [reflexivity|]. split; [reflexivity|].
  split; [reflexivity|]. split; [reflexivity|]. split; [reflexivity|].
  split; [eexists _, _; split; reflexivity|].
  split; [reflexivity|]. split; reflexivity.
Qed.

(** C4.  A [Submit] on an empty backlog with [nextRefcount = 0] calls the
    [onSubmit] callbacks and then the [onFullyConsumed] callbacks with the
    item, in that order, and changes nothing else: the Distributor (backlog,
    [basePosition], [nextRefcount], wakeup channel) and the channels are as
    before, and no [onBufsizeChange] callback is called. *)
Theorem Submit_without_audience (item : T) (w : World) :
  buf (dist w) = [] -> nextRefcount (dist w) = 0 ->
  exists new : list Call,
    Submit item w = with_calls w (calls w ++ new) /\
    new = pass CallSubmit (onSubmit (dist w)) item
          ++ pass CallFullyConsumed (onFullyConsumed (dist w)) item /\
    bufsize_calls new = [] /\
    dist (Submit item w) = dist w /\ chans (Submit item w) = chans w.
Proof.
  intros Hb Hn. eexists. rewrite (Submit_discard item w Hb Hn).
  split; [reflexivity|]. split; [reflexivity|].
  rewrite bufsize_calls_app, bufsize_calls_pass_submit, bufsize_calls_pass_consumed.
  repeat split.
Qed.

(** C5.  [cleanupOldEvents] drops the first [k] slots, where [k] is the index
    of the first slot whose refcount is not zero (the length of the backlog
    when there is none): the slots before [k] all have refcount zero, slot [k]
    does not, and the new backlog is the old one from [k] on, whatever the
    refcounts of the later slots.  It calls [onFullyConsumed] with the value
    of each dropped slot, front to back; it adds [k] to [basePosition] (in
    [int64] arithmetic, which is exact unless it overflows); it calls
    [onBufsizeChange] with the new length exactly when [k > 0]; and it changes
    nothing else. *)
Theorem cleanupOldEvents_trims (w : World) :
  exists k : nat,
    (k <= length (buf (dist w)))%nat /\
    (forall j e, (j < k)%nat -> buf (dist w) !! j = Some e -> refcount e = 0) /\
    (forall e, buf (dist w) !! k = Some e -> refcount e <> 0) /\
    let w1 := cleanupOldEvents w in
    buf (dist w1) = drop k (buf (dist w)) /\
    basePosition (dist w1)
      = (if Nat.eqb k 0 then basePosition (dist w)
         else add64 (basePosition (dist w)) (Z.of_nat k)) /\
    (int64_range (basePosition (dist w)) ->
     int64_range (basePosition (dist w) + len (buf (dist w))) ->
     basePosition (dist w1) = basePosition (dist w) + Z.of_nat k) /\
    calls w1 =
      calls w ++ fired (onFullyConsumed (dist w)) (map value (take k (buf (dist w))))
              ++ (if Nat.eqb k 0 then []
                  else pass CallBufsizeChange (onBufsizeChange (dist w))
                         (len (buf (dist w1)))) /\
    nextRefcount (dist w1) = nextRefcount (dist w) /\
    waiters (dist w1) = waiters (dist w) /\
    chans w1 = chans w.
Proof.
  exists (leading_zeros (buf (dist w))).
  pose proof (leading_zeros_le (buf (dist w))) as Hle.
  split; [exact Hle|].
  split; [intros j e; apply leading_zeros_zero|].
  split; [apply leading_zeros_stop|].
  cbn zeta. rewrite cleanupOldEvents_spec.
  destruct (leading_zeros (buf (dist w))) as [|k].
  - cbn. rewrite app_nil_r. repeat split. intros _ _. lia.
  - unfold trimmed.
    cbn [Nat.eqb dist calls chans with_basePosition with_buf buf basePosition
         nextRefcount waiters].
    split; [reflexivity|]. split; [reflexivity|].
    split; [|repeat split].
    intros H1 H2. apply add64_id. unfold int64_range, len in *. lia.
Qed.

(** C6.  In every state a program of fewer than 2^63 calls can reach,
    [nextRefcount] is the number of live Readers whose position is
    [basePosition + len(buf)], and the refcount of each slot is the number of
    live Readers whose position is the absolute position of the slot. *)
Theorem refcounts_count_readers (options : list Options) (ops : list Op)
    (s : System) :
  len ops < 2 ^ 63 -> exec (init options) ops = Some s ->
  nextRefcount (dist (world s))
    = claims (basePosition (dist (world s)) + len (buf (dist (world s)))) (readers s) /\
  forall (j : nat) (e : eventInfo),
    buf (dist (world s)) !! j = Some e ->
    refcount e = claims (basePosition (dist (world s)) + Z.of_nat j) (readers s).
Proof.
  intros Hn He. destruct (Inv_reachable options ops s Hn He) as [HC _].
  split; [apply (cnt_next _ _ _ HC) | apply (cnt_refcount _ _ _ HC)].
Qed.

(** C7.  In a reachable state, two live Readers that are both unready get the
    same channel from [WaitChan], and it is open.  A [Submit] that appends
    then closes that channel, so both are woken at once, and clears the stored
    channel: the next [WaitChan] of an unready Reader returns a channel that
    is a different one and is open, while the old one stays closed. *)
Theorem WaitChan_broadcast (options : list Options) (ops : list Op) (s : System)
    (i j : nat) (r1 r2 : Reader) (item : T) :
  exec (init options) ops = Some s ->
  readers s !! i = Some r1 -> readers s !! j = Some r2 ->
  d r1 = Ptr -> d r2 = Ptr ->
  unready r1 (world s) -> unready r2 (world s) ->
  exists (c : chan) (w2 : World),
    WaitChan r1 (world s) = Done c w2 /\ WaitChan r2 w2 = Done c w2 /\
    is_closed (chans w2) c = false /\
    ((len (buf (dist w2)) =? 0) && (nextRefcount (dist w2) =? 0) = false ->
     is_closed (chans (Submit item w2)) c = true /\
     waiters (dist (Submit item w2)) = None /\
     forall r3 : Reader, d r3 = Ptr -> unready r3 (Submit item w2) ->
       exists (c' : chan) (w4 : World),
         WaitChan r3 (Submit item w2) = Done c' w4 /\
         c' <> c /\ is_closed (chans w4) c' = false /\ is_closed (chans w4) c = true).
Proof.
  intros He Hi Hj Hd1 Hd2 Hu1 Hu2.
  pose proof (chans_ok_exec ops _ _ He (chans_ok_init options)) as Hok.
  destruct (WaitChan_shared r1 r2 (world s) Hok Hd1 Hd2 Hu1 Hu2)
    as (c & w2 & Hw1 & Hw2 & Hwt & Hopen & Hok2 & _ & _).
  exists c, w2. split; [exact Hw1|]. split; [exact Hw2|]. split; [exact Hopen|].
  intros Happ.
  destruct (Submit_wakes item w2 c Hok2 Hwt Happ) as (Hclosed & Hnone & Hlen).
  split; [exact Hclosed|]. split; [exact Hnone|].
  intros r3 Hd3 Hu3.
  pose proof (chans_ok_Submit item w2 Hok2) as Hok3.
  destruct (WaitChan_fresh r3 _ Hok3 Hnone Hd3 Hu3) as (w4 & Hw4 & Hfresh & _ & Hold).
  pose proof (is_closed_lt _ _ Hclosed) as Hlt.
  eexists _, w4. split; [exact Hw4|]. split; [lia|]. split; [exact Hfresh|].
  rewrite (Hold c Hlt). exact Hclosed.
Qed.

(** C8.  Whatever an operation adds to the log holds [onBufsizeChange] calls
    only if the operation changed the length of the backlog, and then exactly
    one pass over the registered callbacks, each called with the length of the
    backlog the operation leaves.  This holds for a trimming pass, for
    [Submit], and for every call of a client; a call that panics adds nothing
    and changes nothing. *)
Theorem bufsize_reports :
  (forall w : World, bufsize_report w (cleanupOldEvents w)) /\
  (forall (item : T) (w : World), bufsize_report w (Submit item w)) /\
  (forall (s s1 : System) (op : Op) (ret : Ret),
     step s op = Some (ret, s1) -> bufsize_report (world s) (world s1)) /\
  (forall (r : Reader) (w w1 : World),
     (WaitChan r w = Panic w1 -> w1 = w) /\
     (Consume r w = Panic w1 -> w1 = w) /\
     (Unsubscribe r w = Panic w1 -> w1 = w)).
Proof.
  split; [exact bufsize_report_cleanupOldEvents|].
  split; [exact bufsize_report_Submit|].
  split; [exact bufsize_report_step|].
  intros r w w1. split; [apply WaitChan_Panic|].
  split; [apply Consume_Panic | apply Unsubscribe_Panic].
Qed.

(** C9.  The Reader that [Unsubscribe] leaves behind has a nil Distributor
    pointer, and every further [WaitChan], [Consume] or [Unsubscribe] on it
    panics in whatever world it is called, leaving that world as it was. *)
Theorem use_after_Unsubscribe_panics (r r1 : Reader) (w w1 : World) :
  Unsubscribe r w = Done r1 w1 ->
  d r1 = Nil /\
  forall w2 : World,
    WaitChan r1 w2 = Panic w2 /\ Consume r1 w2 = Panic w2 /\
    Unsubscribe r1 w2 = Panic w2.
Proof.
  intros Hu. apply Unsubscribe_inv in Hu as (_ & -> & _).
  split; [reflexivity|]. intros w2. repeat split.
Qed.

(** C10.  In every state a program of fewer than 2^63 calls can reach, the
    first slot of a nonempty backlog has a positive refcount, so that a
    trimming pass there would do nothing; and every further call keeps this.
    In particular it holds after an [Unsubscribe] that did not trim. *)
Theorem head_is_claimed (options : list Options) (ops : list Op) (s : System) :
  len ops + 1 < 2 ^ 63 -> exec (init options) ops = Some s ->
  (forall e, buf (dist (world s)) !! 0%nat = Some e -> 0 < refcount e) /\
  cleanupOldEvents (world s) = world s /\
  forall (op : Op) (ret : Ret) (s1 : System),
    step s op = Some (ret, s1) ->
    (forall e, buf (dist (world s1)) !! 0%nat = Some e -> 0 < refcount e) /\
    cleanupOldEvents (world s1) = world s1.
Proof.
  intros Hn He.
  pose proof (Inv_reachable options ops s ltac:(lia) He) as HI.
  split; [intros e; apply (Inv_head_positive _ _ e HI)|].
  split; [apply head_claimed_no_trim, HI|].
  intros op ret s1 Hs.
  pose proof (Inv_step _ _ _ _ _ Hn HI Hs) as HI1.
  split; [intros e; apply (Inv_head_positive _ _ e HI1)|].
  apply head_claimed_no_trim, HI1.
Qed.

(** * Further properties of the code *)

(** ** Construction *)

(** X1.  [New] returns a Distributor on which nothing has happened yet
    (position 0, empty backlog, no claim, no wakeup channel) and whose three
    callback lists hold exactly the callbacks that were added to the options,
    each list in the order of the options and, within an option, in the order
    of the calls that added them. *)
Theorem New_registers_callbacks (options : list Options) :
  unused (New options) /\
  onBufsizeChange (New options) = registered pick_onBufsizeChange options /\
  onSubmit (New options) = registered pick_onSubmit options /\
  onFullyConsumed (New options) = registered pick_onFullyConsumed options.
Proof. rewrite New_spec. repeat split. Qed.




(** X3.  No operation touches the callback lists: in every state a program
    reaches they are the lists [New] built from the options. *)
Theorem callbacks_never_change (options : list Options) (ops : list Op) (s : System) :
  exec (init options) ops = Some s ->
  onBufsizeChange (dist (world s)) = registered pick_onBufsizeChange options /\
  onSubmit (dist (world s)) = registered pick_onSubmit options /\
  onFullyConsumed (dist (world s)) = registered pick_onFullyConsumed options.
Proof.
  intros He. destruct (callbacks_exec ops _ _ He) as (H1 & H2 & H3).
  rewrite H1, H2, H3. unfold init. cbn [world dist]. rewrite New_spec.
  repeat split.
Qed.

(** ** Trimming *)

Lemma leading_zeros_drop (l : list eventInfo) :
  leading_zeros (drop (leading_zeros l) l) = 0%nat.
Proof.
  induction l as [|e l IH]; simpl; [reflexivity|].
  destruct (Z.eqb_spec (refcount e) 0) as [Hz|Hz]; simpl.
  - exact IH.
  - destruct (Z.eqb_spec (refcount e) 0); [contradiction | reflexivity].
Qed.

(** X4.  Trimming twice is trimming once: after [cleanupOldEvents] the head of
    the backlog is claimed (or the backlog is empty), so a second pass drops
    nothing, calls nothing and leaves the world as it is. *)
Theorem cleanupOldEvents_idempotent (w : World) :
  cleanupOldEvents (cleanupOldEvents w) = cleanupOldEvents w.
Proof.
  rewrite (cleanupOldEvents_spec w).
  rewrite cleanupOldEvents_spec.
  assert (Hz : leading_zeros (buf (dist (trimmed w (leading_zeros (buf (dist w))))))
               = 0%nat).
  { pose proof (leading_zeros_drop (buf (dist w))) as Hd.
    destruct (leading_zeros (buf (dist w))) as [|k]; [exact Hd|].
    exact Hd. }
  rewrite Hz. reflexivity.
Qed.

(** ** Channels *)

Lemma is_closed_step (s s1 : System) (op : Op) (ret : Ret) :
  step s op = Some (ret, s1) ->
  (forall c, is_closed (chans (world s)) c = true ->
             is_closed (chans (world s1)) c = true) /\
  ((forall item, op <> OpSubmit item) ->
   forall c, is_closed (chans (world s1)) c = is_closed (chans (world s)) c).
Proof.
  intros Hs. destruct op as [item| |i|i|i]; cbn [step] in Hs.
  - injection Hs as _ <-. cbn [world]. split.
    + intros c Hc.
      destruct ((len (buf (dist (world s))) =? 0)
                && (nextRefcount (dist (world s)) =? 0)) eqn:Hb.
      * apply andb_true_iff in Hb as [H1 H2].
        apply Z.eqb_eq in H1, H2. apply len_zero in H1.
        rewrite (Submit_discard item _ H1 H2). exact Hc.
      * rewrite (Submit_append item _ Hb). cbn [chans].
        destruct (waiters (dist (world s))) as [c0|]; [|exact Hc].
        rewrite is_closed_close. case_decide; [reflexivity | exact Hc].
    + intros Hn. exfalso. apply (Hn item). reflexivity.
  - injection Hs as _ <-. cbn. split; [auto | reflexivity].
  - destruct (readers s !! i) as [r|]; [|discriminate].
    destruct (WaitChan r (world s)) as [c0 w1|] eqn:Hw; [|discriminate].
    injection Hs as _ <-. cbn [world].
    apply WaitChan_inv in Hw as (_ & [(_ & _ & ->)|[(_ & _ & ->)|(_ & _ & _ & ->)]]);
      try (split; [auto | reflexivity]).
    cbn [chans with_chans].
    assert (Heq : forall c, is_closed (chans (world s) ++ [false]) c
                            = is_closed (chans (world s)) c).
    { intros c. rewrite is_closed_app. case_decide as Hc; [|reflexivity].
      subst c. unfold is_closed. rewrite lookup_ge_None_2; [reflexivity | lia]. }
    split; [intros c Hc; rewrite Heq; exact Hc | intros _ c; apply Heq].
  - destruct (readers s !! i) as [r|]; [|discriminate].
    destruct (Consume r (world s)) as [[item r1] w1|] eqn:Hc; [|discriminate].
    injection Hs as _ <-. cbn [world].
    apply Consume_inv in Hc as (_ & e & _ & _ & _ & ->).
    rewrite cleanupOldEvents_spec, trimmed_chans, claim_moved_chans.
    split; [auto | reflexivity].
  - destruct (readers s !! i) as [r|]; [|discriminate].
    destruct (Unsubscribe r (world s)) as [r1 w1|] eqn:Hu; [|discriminate].
    injection Hs as _ <-. cbn [world].
    apply Unsubscribe_inv in Hu as (_ & _ & [(e & _ & ->)|(_ & ->)]).
    + cbn zeta.
      destruct (sub64 (position r) (basePosition (dist (world s))) =? 0).
      * rewrite cleanupOldEvents_spec, trimmed_chans. split; [auto | reflexivity].
      * split; [auto | reflexivity].
    + split; [auto | reflexivity].
Qed.

(** X5.  A channel that is closed stays closed whatever is called next, and
    only [Submit] closes one: [Subscribe], [WaitChan], [Consume] and
    [Unsubscribe] leave every channel as it was (a [WaitChan] may allocate a
    new channel, which is open). *)
Theorem channels_closed_only_by_Submit (s s1 : System) (op : Op) (ret : Ret) :
  step s op = Some (ret, s1) ->
  (forall c, is_closed (chans (world s)) c = true ->
             is_closed (chans (world s1)) c = true) /\
  ((forall item, op <> OpSubmit item) ->
   forall c, is_closed (chans (world s1)) c = is_closed (chans (world s)) c).
Proof. apply is_closed_step. Qed.

(** ** The older variant *)

Lemma EventDistributor_cleanupLoop_eq (rest : list eventInfo) (n : nat) (w : World) :
  EventDistributor_cleanupLoop rest n w = cleanupLoop rest n w.
Proof.
  revert n w. induction rest as [|e rest IH]; intros n w; simpl; [reflexivity|].
  destruct (negb (refcount e =? 0)); [reflexivity | apply IH].
Qed.

Lemma EventDistributor_cleanupOldEvents_eq (w : World) :
  EventDistributor_cleanupOldEvents w = cleanupOldEvents w.
Proof.
  unfold EventDistributor_cleanupOldEvents, cleanupOldEvents.
  rewrite EventDistributor_cleanupLoop_eq. reflexivity.
Qed.

(** X6.  Except for the Reader that [Consume] leaves behind, the older variant
    computes what the primary one computes: construction, [Submit],
    [Subscribe], [WaitChan], [Unsubscribe] and trimming give the same results
    and worlds on every input, and [EventReader.Consume] panics exactly when
    [Reader.Consume] does and otherwise returns the same item and world, but
    hands back the Reader unchanged. *)
Theorem EventDistributor_agrees_except_position :
  (forall options, NewEventDistributor options = New options) /\
  (forall w, EventDistributor_cleanupOldEvents w = cleanupOldEvents w) /\
  (forall item w, EventDistributor_Submit item w = Submit item w) /\
  (forall w, EventDistributor_Subscribe w = Subscribe w) /\
  (forall r w, EventReader_WaitChan r w = WaitChan r w) /\
  (forall r w, EventReader_Unsubscribe r w = Unsubscribe r w) /\
  (forall r w, EventReader_Consume r w =
     match Consume r w with
     | Done (item, _) w1 => Done (item, r) w1
     | Panic w1 => Panic w1
     end).
Proof.
  split; [reflexivity|].
  split; [exact EventDistributor_cleanupOldEvents_eq|].
  split; [reflexivity|]. split; [reflexivity|]. split; [reflexivity|].
  split.
  - intros r w. unfold EventReader_Unsubscribe, Unsubscribe.
    rewrite EventDistributor_cleanupOldEvents_eq. reflexivity.
  - intros r w. unfold EventReader_Consume, Consume.
    destruct (d r); [reflexivity|].
    cbn zeta.
    destruct (index (buf (dist w)) (sub64 (position r) (basePosition (dist w))));
      [|reflexivity].
    rewrite EventDistributor_cleanupOldEvents_eq. reflexivity.
Qed.

(** ** What the callbacks are told *)

Lemma submit_calls_app (a b : list Call) :
  submit_calls (a ++ b) = submit_calls a ++ submit_calls b.
Proof. unfold submit_calls. apply List.filter_app. Qed.

Lemma submit_calls_pass_submit fs (item : T) :
  submit_calls (pass CallSubmit fs item) = pass CallSubmit fs item.
Proof. induction fs as [|f fs IH]; simpl; [reflexivity | f_equal; exact IH]. Qed.

Lemma submit_calls_pass_size fs (n : Z) :
  submit_calls (pass CallBufsizeChange fs n) = [].
Proof. induction fs as [|f fs IH]; simpl; [reflexivity | exact IH]. Qed.

Lemma submit_calls_pass_consumed fs (item : T) :
  submit_calls (pass CallFullyConsumed fs item) = [].
Proof. induction fs as [|f fs IH]; simpl; [reflexivity | exact IH]. Qed.

Lemma submit_calls_fired fs (items : list T) : submit_calls (fired fs items) = [].
Proof.
  induction items as [|x items IH]; simpl; [reflexivity|].
  rewrite submit_calls_app, submit_calls_pass_consumed, IH. reflexivity.
Qed.

Lemma submit_calls_trimmed (w : World) (k : nat) :
  submit_calls (calls (trimmed w k)) = submit_calls (calls w).
Proof.
  destruct k; [reflexivity|]. cbn [trimmed calls].
  rewrite !submit_calls_app, submit_calls_fired, submit_calls_pass_size.
  rewrite !app_nil_r. reflexivity.
Qed.

Lemma submit_calls_step (s s1 : System) (op : Op) (ret : Ret) :
  step s op = Some (ret, s1) ->
  submit_calls (calls (world s1)) =
    submit_calls (calls (world s))
    ++ flat_map (pass CallSubmit (onSubmit (dist (world s)))) (submitted [op]).
Proof.
  destruct op as [item| |i|i|i]; cbn [step submitted flat_map];
    rewrite ?app_nil_r.
  - intros [= <- <-]. cbn [world].
    destruct ((len (buf (dist (world s))) =? 0)
              && (nextRefcount (dist (world s)) =? 0)) eqn:Hc.
    + apply andb_true_iff in Hc as [Hb Hz].
      apply Z.eqb_eq in Hb, Hz. apply len_zero in Hb.
      rewrite (Submit_discard item _ Hb Hz). cbn [calls with_calls].
      rewrite !submit_calls_app, submit_calls_pass_submit, submit_calls_pass_consumed.
      rewrite app_nil_r. reflexivity.
    + rewrite (Submit_append item _ Hc). cbn [calls].
      rewrite !submit_calls_app, submit_calls_pass_submit, submit_calls_pass_size.
      rewrite app_nil_r. reflexivity.
  - intros [= <- <-]. reflexivity.
  - destruct (readers s !! i) as [r|]; [|discriminate].
    destruct (WaitChan r (world s)) as [c w1|] eqn:Hw; [|discriminate].
    intros [= <- <-]. cbn [world].
    apply WaitChan_inv in Hw as [_ [(_ & _ & ->)|[(_ & _ & ->)|(_ & _ & _ & ->)]]];
      reflexivity.
  - destruct (readers s !! i) as [r|]; [|discriminate].
    destruct (Consume r (world s)) as [[item r1] w1|] eqn:Hc; [|discriminate].
    intros [= <- <-]. cbn [world].
    apply Consume_inv in Hc as (_ & e & _ & _ & _ & ->).
    rewrite cleanupOldEvents_spec, submit_calls_trimmed, claim_moved_calls.
    reflexivity.
  - destruct (readers s !! i) as [r|]; [|discriminate].
    destruct (Unsubscribe r (world s)) as [r1 w1|] eqn:Hu; [|discriminate].
    intros [= <- <-]. cbn [world].
    apply Unsubscribe_inv in Hu as (_ & _ & [(e & _ & Hw)|(_ & ->)]);
      [|reflexivity].
    cbn zeta in Hw. subst w1. destruct (_ =? 0); [|reflexivity].
    rewrite cleanupOldEvents_spec, submit_calls_trimmed. reflexivity.
Qed.

Lemma submit_calls_exec (ops : list Op) :
  forall s s1, exec s ops = Some s1 ->
  submit_calls (calls (world s1)) =
    submit_calls (calls (world s))
    ++ flat_map (pass CallSubmit (onSubmit (dist (world s)))) (submitted ops).
Proof.
  induction ops as [|op ops IH]; intros s s1 He; cbn [exec] in He.
  - injection He as <-. cbn. rewrite app_nil_r. reflexivity.
  - destruct (step s op) as [[ret s0]|] eqn:Hs; [|discriminate].
    rewrite (IH _ _ He), (submit_calls_step _ _ _ _ Hs).
    destruct (callbacks_step _ _ _ _ Hs) as (_ & -> & _).
    rewrite <- app_assoc, <- flat_map_app.
    change (op :: ops) with ([op] ++ ops). rewrite submitted_app. reflexivity.
Qed.

(** X7.  Over a whole program the [onSubmit] callbacks are called once for
    each [Submit], with its item, in the order of the calls of [Submit] and,
    for one item, in the order in which the callbacks were added; nothing
    else calls them.  This holds whether or not the item found an audience. *)
Theorem onSubmit_once_per_Submit (options : list Options) (ops : list Op) (s : System) :
  exec (init options) ops = Some s ->
  submit_calls (calls (world s)) =
    flat_map (pass CallSubmit (registered pick_onSubmit options)) (submitted ops).
Proof.
  intros He. rewrite (submit_calls_exec ops _ _ He).
  unfold init. cbn [world dist calls]. rewrite New_spec. reflexivity.
Qed.

Lemma reported_size_app (a b : list Call) :
  reported_size (a ++ b) =
    fold_left (fun acc c => match c with CallBufsizeChange _ n => n | _ => acc end)
      b (reported_size a).
Proof. unfold reported_size. apply fold_left_app. Qed.

Lemma reported_size_filter (cl : list Call) (z : Z) :
  fold_left (fun acc c => match c with CallBufsizeChange _ n => n | _ => acc end) cl z
  = fold_left (fun acc c => match c with CallBufsizeChange _ n => n | _ => acc end)
      (bufsize_calls cl) z.
Proof.
  revert z. induction cl as [|c cl IH]; intros z; [reflexivity|].
  destruct c; simpl; apply IH.
Qed.

Lemma reported_size_pass (fs : list callback) (n z : Z) :
  fs <> [] ->
  fold_left (fun acc c => match c with CallBufsizeChange _ n => n | _ => acc end)
    (pass CallBufsizeChange fs n) z = n.
Proof.
  intros Hne. destruct fs as [|f fs]; [contradiction|]. clear Hne. simpl.
  induction fs as [|g fs IH]; [reflexivity | exact IH].
Qed.

Lemma reported_size_step (w w1 : World) :
  bufsize_report w w1 -> onBufsizeChange (dist w1) <> [] ->
  reported_size (calls w) = len (buf (dist w)) ->
  reported_size (calls w1) = len (buf (dist w1)).
Proof.
  intros (new & Hc & Hb) Hne Hr.
  rewrite Hc, reported_size_app, reported_size_filter, Hb.
  destruct (Z.eqb_spec (len (buf (dist w1))) (len (buf (dist w)))) as [Hl|Hl].
  - simpl. congruence.
  - apply reported_size_pass. exact Hne.
Qed.

Lemma reported_size_exec (ops : list Op) :
  forall s s1, exec s ops = Some s1 ->
  onBufsizeChange (dist (world s)) <> [] ->
  reported_size (calls (world s)) = len (buf (dist (world s))) ->
  reported_size (calls (world s1)) = len (buf (dist (world s1))).
Proof.
  induction ops as [|op ops IH]; intros s s1 He Hne Hr; cbn [exec] in He.
  - injection He as <-. exact Hr.
  - destruct (step s op) as [[ret s0]|] eqn:Hs; [|discriminate].
    destruct (callbacks_step _ _ _ _ Hs) as (Hcb & _ & _).
    apply (IH _ _ He).
    + rewrite Hcb. exact Hne.
    + apply (reported_size_step (world s)).
      * apply (bufsize_report_step _ _ _ _ Hs).
      * rewrite Hcb. exact Hne.
      * exact Hr.
Qed.

(** X8.  When at least one [onBufsizeChange] callback is registered, the size
    last reported to it is the current length of the backlog, in every state
    a program reaches (0, for the empty backlog, before it was ever called):
    a gauge fed by the callback never goes stale. *)
Theorem reported_size_is_current (options : list Options) (ops : list Op)
    (s : System) :
  registered pick_onBufsizeChange options <> [] ->
  exec (init options) ops = Some s ->
  reported_size (calls (world s)) = len (buf (dist (world s))).
Proof.
  intros Hne He. apply (reported_size_exec ops _ _ He).
  - unfold init. cbn [world dist]. rewrite New_spec. exact Hne.
  - unfold init. cbn [world dist calls]. rewrite New_spec. reflexivity.
Qed.

(** ** Readers in the states a program reaches *)

Lemma claims_pos_member (p : Z) (rs : list Reader) :
  0 < claims p rs ->
  exists i r, rs !! i = Some r /\ live r = true /\ position r = p.
Proof.
  induction rs as [|r rs IH]; simpl; [lia|].
  intros H. destruct (live r && (position r =? p)) eqn:Hb.
  - apply andb_true_iff in Hb as [Hl Hp]. apply Z.eqb_eq in Hp.
    exists 0%nat, r. auto.
  - destruct (IH ltac:(lia)) as (i & r0 & Hi & Hl & Hp).
    exists (S i), r0. auto.
Qed.

(** X9.  In every state a program reaches, [WaitChan] on a Reader that is
    subscribed returns a channel that is closed exactly when the Reader has
    an event to read (its index is below the length of the backlog), and the
    call changes neither the backlog, nor the counters, nor the log. *)
Theorem WaitChan_closed_iff_ready (options : list Options) (ops : list Op)
    (s : System) (r : Reader) :
  exec (init options) ops = Some s -> d r = Ptr ->
  exists (c : chan) (w1 : World),
    WaitChan r (world s) = Done c w1 /\
    (is_closed (chans w1) c = true <->
     sub64 (position r) (basePosition (dist (world s))) < len (buf (dist (world s)))) /\
    buf (dist w1) = buf (dist (world s)) /\
    basePosition (dist w1) = basePosition (dist (world s)) /\
    nextRefcount (dist w1) = nextRefcount (dist (world s)) /\
    calls w1 = calls (world s).
Proof.
  intros He Hd.
  pose proof (chans_ok_exec ops _ _ He (chans_ok_init options)) as [H0 Hc].
  destruct (Z.lt_ge_cases (sub64 (position r) (basePosition (dist (world s))))
              (len (buf (dist (world s))))) as [Hlt|Hge].
  - exists closedChannel, (world s).
    rewrite WaitChan_ready by (auto; unfold unready; lia).
    split; [reflexivity|]. split; [tauto|]. repeat split.
  - rewrite WaitChan_unready by auto.
    destruct (waiters (dist (world s))) as [c|] eqn:Hw.
    + exists c, (world s). split; [reflexivity|].
      destruct (Hc c eq_refl) as [_ Hopen].
      split; [rewrite Hopen; split; [discriminate | lia]|]. repeat split.
    + eexists _, _. split; [reflexivity|].
      cbn [chans with_chans with_dist with_waiters dist buf basePosition
           nextRefcount calls].
      split; [|repeat split].
      rewrite is_closed_app, decide_True by reflexivity.
      split; [discriminate | lia].
Qed.

(** X10.  In every state a program (of fewer than 2^63 - 1 calls) reaches,
    [Subscribe] returns a Reader placed just past the last event of the
    backlog and records one more claim in [nextRefcount]: the Reader has
    nothing to read, whatever the backlog holds, and a [Consume] on it at
    that point panics and changes nothing. *)
Theorem Subscribe_starts_at_the_tail (options : list Options) (ops : list Op)
    (s : System) :
  len ops + 1 < 2 ^ 63 -> exec (init options) ops = Some s ->
  let r := fst (Subscribe (world s)) in
  let w1 := snd (Subscribe (world s)) in
  d r = Ptr /\
  position r = basePosition (dist (world s)) + len (buf (dist (world s))) /\
  unready r w1 /\
  Consume r w1 = Panic w1 /\
  nextRefcount (dist w1) = nextRefcount (dist (world s)) + 1 /\
  buf (dist w1) = buf (dist (world s)).
Proof.
  intros Hn He. destruct (Inv_reachable options ops s ltac:(lia) He) as [HC _].
  pose proof (cnt_base _ _ _ HC) as Hb. pose proof (cnt_tail _ _ _ HC) as Ht.
  pose proof (cnt_readers _ _ _ HC) as Hr. pose proof (cnt_next _ _ _ HC) as Hx.
  pose proof (claims_bounds
                (basePosition (dist (world s)) + len (buf (dist (world s))))
                (readers s)) as Hcl.
  pose proof (len_nonneg (buf (dist (world s)))) as Hl.
  cbn zeta. unfold Subscribe.
  cbn [fst snd d position dist with_dist with_nextRefcount buf basePosition
       nextRefcount].
  assert (Hp : add64 (basePosition (dist (world s))) (len (buf (dist (world s))))
               = basePosition (dist (world s)) + len (buf (dist (world s))))
    by (apply add64_id; unfold int64_range; lia).
  assert (Hi : sub64 (basePosition (dist (world s)) + len (buf (dist (world s))))
                 (basePosition (dist (world s)))
               = len (buf (dist (world s))))
    by (rewrite sub64_id; [lia | unfold int64_range; lia]).
  rewrite Hp.
  split; [reflexivity|]. split; [reflexivity|].
  split; [unfold unready;
          cbn [dist buf basePosition position with_dist with_nextRefcount];
          rewrite Hi; lia|].
  split.
  - unfold Consume.
    cbn [d position dist buf basePosition with_dist with_nextRefcount]. rewrite Hi.
    unfold index. destruct (Z.ltb_spec (len (buf (dist (world s)))) 0); [reflexivity|].
    rewrite lookup_ge_None_2; [reflexivity | unfold len; lia].
  - split; [apply add64_id; unfold int64_range; lia | reflexivity].
Qed.

(** X11.  In every such state, a [Subscribe] followed at once by the
    [Unsubscribe] of the Reader it returned leaves the world exactly as it
    was before the two calls. *)
Theorem Subscribe_Unsubscribe_restores (options : list Options) (ops : list Op)
    (s : System) :
  len ops + 1 < 2 ^ 63 -> exec (init options) ops = Some s ->
  Unsubscribe (fst (Subscribe (world s))) (snd (Subscribe (world s)))
    = Done (mkReader Nil (basePosition (dist (world s)) + len (buf (dist (world s)))))
        (world s).
Proof.
  intros Hn He. destruct (Inv_reachable options ops s ltac:(lia) He) as [HC _].
  pose proof (cnt_base _ _ _ HC) as Hb. pose proof (cnt_tail _ _ _ HC) as Ht.
  pose proof (cnt_readers _ _ _ HC) as Hr. pose proof (cnt_next _ _ _ HC) as Hx.
  pose proof (claims_bounds
                (basePosition (dist (world s)) + len (buf (dist (world s))))
                (readers s)) as Hcl.
  pose proof (len_nonneg (buf (dist (world s)))) as Hl.
  unfold Subscribe, Unsubscribe.
  cbn [fst snd d position dist with_dist with_nextRefcount buf basePosition
       nextRefcount].
  rewrite (add64_id (basePosition (dist (world s))) (len (buf (dist (world s)))))
    by (unfold int64_range; lia).
  rewrite sub64_id by (unfold int64_range; lia).
  destruct (Z.ltb_spec (basePosition (dist (world s)) + len (buf (dist (world s)))
                        - basePosition (dist (world s)))
              (len (buf (dist (world s))))) as [Hlt|_]; [lia|].
  rewrite (add64_id (nextRefcount (dist (world s))) 1) by (unfold int64_range; lia).
  rewrite add64_id by (unfold int64_range; lia).
  replace (nextRefcount (dist (world s)) + 1 + -1) with (nextRefcount (dist (world s)))
    by lia.
  destruct (world s) as [[bp bf nr wt f1 f2 f3] cs cl]. reflexivity.
Qed.

(** X12.  In every state a program reaches, a backlog that is not empty is
    held by a subscriber: some subscribed Reader stands exactly at
    [basePosition], the first retained event.  Hence once every Reader has
    unsubscribed, the backlog is empty: nothing is retained for nobody. *)
Theorem backlog_is_held_by_a_reader (options : list Options) (ops : list Op)
    (s : System) :
  len ops < 2 ^ 63 -> exec (init options) ops = Some s ->
  (buf (dist (world s)) <> [] ->
   exists i r, readers s !! i = Some r /\ live r = true /\
               position r = basePosition (dist (world s))) /\
  ((forall i r, readers s !! i = Some r -> live r = false) ->
   buf (dist (world s)) = []).
Proof.
  intros Hn He. destruct (Inv_reachable options ops s Hn He) as [HC Hh].
  assert (Hheld : buf (dist (world s)) <> [] ->
            exists i r, readers s !! i = Some r /\ live r = true /\
                        position r = basePosition (dist (world s))).
  { intros Hne. destruct (buf (dist (world s))) as [|e l] eqn:Hb; [contradiction|].
    assert (H0 : buf (dist (world s)) !! 0%nat = Some e) by (rewrite Hb; reflexivity).
    pose proof (cnt_refcount _ _ _ HC 0%nat e H0) as Hr.
    pose proof (claims_bounds (basePosition (dist (world s)) + Z.of_nat 0) (readers s))
      as Hcl.
    assert (Hz : refcount e <> 0) by (apply Hh; exact H0).
    destruct (claims_pos_member (basePosition (dist (world s)) + Z.of_nat 0)
                (readers s) ltac:(lia)) as (i & r & Hi & Hl & Hp).
    exists i, r. split; [exact Hi|]. split; [exact Hl | lia]. }
  split; [exact Hheld|].
  intros Hdead. destruct (buf (dist (world s))) as [|e l] eqn:Hb; [reflexivity|].
  destruct (Hheld ltac:(discriminate)) as (i & r & Hi & Hl & _).
  rewrite (Hdead i r Hi) in Hl. discriminate.
Qed.

(** X13.  In every state a program reaches, an item submitted while a Reader
    is subscribed is stored for it: [Submit] appends the item to the backlog
    (it is not discarded), after which [WaitChan] of that Reader returns the
    closed channel and its [Consume] returns an item instead of panicking. *)
Theorem Submit_reaches_every_subscriber (options : list Options) (ops : list Op)
    (s : System) (i : nat) (r : Reader) (item : T) :
  len ops < 2 ^ 63 -> exec (init options) ops = Some s ->
  readers s !! i = Some r -> live r = true ->
  let w1 := Submit item (world s) in
  buf (dist w1)
    = buf (dist (world s)) ++ [mkEventInfo (nextRefcount (dist (world s))) item] /\
  WaitChan r w1 = Done closedChannel w1 /\
  exists (item1 : T) (r1 : Reader) (w2 : World), Consume r w1 = Done (item1, r1) w2.
Proof.
  intros Hn He Hi Hl. destruct (Inv_reachable options ops s Hn He) as [HC _].
  destruct (Counted_index _ _ _ i r Hn HC Hi Hl) as [Hidx Hrange].
  assert (Happ : (len (buf (dist (world s))) =? 0)
                 && (nextRefcount (dist (world s)) =? 0) = false).
  { apply andb_false_iff.
    destruct (Z.eqb_spec (len (buf (dist (world s)))) 0) as [Hz|Hz]; [|left; reflexivity].
    right. apply Z.eqb_neq.
    rewrite (cnt_next _ _ _ HC).
    replace (basePosition (dist (world s)) + len (buf (dist (world s))))
      with (position r) by lia.
    pose proof (claims_member _ _ _ Hi Hl). lia. }
  cbn zeta. rewrite (Submit_append item _ Happ).
  cbn [dist buf basePosition].
  apply live_Ptr in Hl.
  split; [reflexivity|]. split.
  - unfold WaitChan. rewrite Hl. cbn [dist buf basePosition].
    rewrite Hidx, len_app.
    destruct (Z.ltb_spec (position r - basePosition (dist (world s)))
                (len (buf (dist (world s)))
                 + len [mkEventInfo (nextRefcount (dist (world s))) item]))
      as [_|Hge]; [reflexivity|].
    unfold len in Hge at 2. simpl in Hge. lia.
  - unfold Consume. rewrite Hl. cbn [dist buf basePosition]. rewrite Hidx.
    destruct (index (buf (dist (world s))
                     ++ [mkEventInfo (nextRefcount (dist (world s))) item])
                (position r - basePosition (dist (world s)))) as [e|] eqn:Hix.
    + eexists _, _, _. reflexivity.
    + exfalso. unfold index in Hix.
      destruct (Z.ltb_spec (position r - basePosition (dist (world s))) 0) as [?|_];
        [lia|].
      apply lookup_ge_None in Hix. rewrite length_app in Hix. simpl in Hix.
      unfold len in Hrange. lia.
Qed.

(** X14.  In every state a program reaches, a subscribed Reader stands within
    the backlog or just past its end (never before [basePosition]: its next
    event is never trimmed away).  So [Unsubscribe] on it does not panic, and
    [Consume] on it panics exactly when it has nothing to read, and otherwise
    returns the event of its slot and moves the Reader one position on. *)
Theorem subscribed_Reader_is_in_range (options : list Options) (ops : list Op)
    (s : System) (i : nat) (r : Reader) :
  len ops < 2 ^ 63 -> exec (init options) ops = Some s ->
  readers s !! i = Some r -> live r = true ->
  basePosition (dist (world s)) <= position r
    <= basePosition (dist (world s)) + len (buf (dist (world s))) /\
  (exists w1, Unsubscribe r (world s) = Done (mkReader Nil (position r)) w1) /\
  (unready r (world s) -> Consume r (world s) = Panic (world s)) /\
  (~ unready r (world s) ->
   exists (e : eventInfo) (w1 : World),
     buf (dist (world s)) !! Z.to_nat (position r - basePosition (dist (world s)))
       = Some e /\
     Consume r (world s) = Done (value e, mkReader Ptr (position r + 1)) w1).
Proof.
  intros Hn He Hi Hl. destruct (Inv_reachable options ops s Hn He) as [HC _].
  destruct (Counted_index _ _ _ i r Hn HC Hi Hl) as [Hidx Hrange].
  pose proof (cnt_base _ _ _ HC) as Hb. pose proof (cnt_tail _ _ _ HC) as Ht.
  apply live_Ptr in Hl.
  split; [lia|]. split; [|split].
  - unfold Unsubscribe. rewrite Hl, Hidx.
    destruct (Z.ltb_spec (position r - basePosition (dist (world s)))
                (len (buf (dist (world s))))) as [Hlt|Hge].
    + destruct (index (buf (dist (world s)))
                  (position r - basePosition (dist (world s)))) as [e|] eqn:Hix.
      * eexists. reflexivity.
      * exfalso. unfold index in Hix.
        destruct (Z.ltb_spec (position r - basePosition (dist (world s))) 0) as [?|_];
          [lia|].
        apply lookup_ge_None in Hix. unfold len in Hlt. lia.
    + eexists. reflexivity.
  - unfold unready. rewrite Hidx. intros Hu.
    unfold Consume. rewrite Hl. cbn zeta. rewrite Hidx.
    unfold index.
    destruct (Z.ltb_spec (position r - basePosition (dist (world s))) 0) as [?|_];
      [reflexivity|].
    rewrite lookup_ge_None_2; [reflexivity | unfold len in Hu; lia].
  - unfold unready. rewrite Hidx. intros Hu.
    destruct (buf (dist (world s))
                !! Z.to_nat (position r - basePosition (dist (world s))))
      as [e|] eqn:Hix.
    + exists e. eexists. split; [reflexivity|].
      rewrite (Consume_Done r (world s) Hl e).
      * rewrite add64_id by (unfold int64_range; lia). reflexivity.
      * rewrite Hidx. apply index_Some. split; [lia | exact Hix].
    + exfalso. apply lookup_ge_None in Hix. unfold len in Hu. lia.
Qed.

Lemma claims_from_cons (p : Z) (k : nat) (r : Reader) (rs : list Reader) :
  claims_from p k (r :: rs) =
    (if live r && (p <=? position r) && (position r <? p + Z.of_nat k) then 1 else 0)
    + claims_from p k rs.
Proof.
  revert p. induction k as [|k IH]; intros p.
  - cbn [claims_from]. destruct (live r); simpl; [|reflexivity].
    destruct (Z.leb_spec p (position r)), (Z.ltb_spec (position r) (p + Z.of_nat 0));
      simpl; lia.
  - cbn [claims_from claims]. rewrite IH.
    destruct (live r); simpl; [|lia].
    destruct (Z.eqb_spec (position r) p), (Z.leb_spec p (position r)),
      (Z.leb_spec (p + 1) (position r)),
      (Z.ltb_spec (position r) (p + Z.of_nat (S k))),
      (Z.ltb_spec (position r) (p + 1 + Z.of_nat k)); simpl; lia.
Qed.

Lemma claims_from_all (p : Z) (k : nat) (rs : list Reader) :
  (forall i r, rs !! i = Some r -> live r = true ->
     p <= position r <= p + Z.of_nat k) ->
  claims_from p k rs + claims (p + Z.of_nat k) rs = live_count rs.
Proof.
  induction rs as [|r rs IH]; intros Hpos.
  - clear Hpos. unfold live_count, len. cbn [List.filter length claims].
    revert p. induction k as [|k IH]; intros p; cbn [claims_from claims]; [reflexivity|].
    specialize (IH (p + 1)). lia.
  - rewrite claims_from_cons. cbn [claims].
    assert (IH' : claims_from p k rs + claims (p + Z.of_nat k) rs = live_count rs).
    { apply IH. intros i0 r0 Hi0. apply (Hpos (S i0) r0). exact Hi0. }
    unfold live_count in *. cbn [List.filter].
    destruct (live r) eqn:Hl.
    + pose proof (Hpos 0%nat r eq_refl Hl) as Hr.
      unfold len in *. cbn [length]. rewrite Nat2Z.inj_succ.
      destruct (Z.leb_spec p (position r)), (Z.ltb_spec (position r) (p + Z.of_nat k)),
        (Z.eqb_spec (position r) (p + Z.of_nat k)); simpl; lia.
    + simpl. lia.
Qed.

Lemma total_claims_from (l : list eventInfo) (nr p : Z) (rs : list Reader) :
  (forall j e, l !! j = Some e -> refcount e = claims (p + Z.of_nat j) rs) ->
  fold_right (fun e acc => refcount e + acc) nr l
    = claims_from p (length l) rs + nr.
Proof.
  revert p. induction l as [|e l IH]; intros p Hr; [reflexivity|].
  cbn [fold_right length claims_from].
  rewrite (IH (p + 1)).
  - rewrite (Hr 0%nat e eq_refl). replace (p + Z.of_nat 0) with p by lia. lia.
  - intros j e0 Hj. rewrite (Hr (S j) e0 Hj). f_equal. lia.
Qed.

(** X15.  In every state a program reaches, each subscribed Reader holds
    exactly one claim: the refcounts of all slots and [nextRefcount] add up
    to the number of subscribed Readers, and none of them is negative. *)
Theorem one_claim_per_Reader (options : list Options) (ops : list Op) (s : System) :
  len ops < 2 ^ 63 -> exec (init options) ops = Some s ->
  total_claims (dist (world s)) = live_count (readers s) /\
  0 <= nextRefcount (dist (world s)) /\
  forall j e, buf (dist (world s)) !! j = Some e -> 0 <= refcount e.
Proof.
  intros Hn He. destruct (Inv_reachable options ops s Hn He) as [HC _].
  split; [|split].
  - unfold total_claims.
    rewrite (total_claims_from _ _ (basePosition (dist (world s))) (readers s)
               (cnt_refcount _ _ _ HC)).
    rewrite (cnt_next _ _ _ HC). apply claims_from_all.
    intros i r Hi Hl. apply (cnt_position _ _ _ HC i r Hi Hl).
  - rewrite (cnt_next _ _ _ HC). apply claims_bounds.
  - intros j e Hj. rewrite (cnt_refcount _ _ _ HC j e Hj). apply claims_bounds.
Qed.

Lemma live_count_zero (rs : list Reader) :
  live_count rs = 0 <-> (forall i r, rs !! i = Some r -> live r = false).
Proof.
  unfold live_count, len. induction rs as [|r rs IH]; cbn [List.filter].
  - split; [intros _ i r Hi; discriminate | reflexivity].
  - destruct (live r) eqn:Hl.
    + split.
      * cbn [length]. lia.
      * intros H. specialize (H 0%nat r eq_refl). congruence.
    + rewrite IH. split.
      * intros H [|i] r0 Hi; [injection Hi as <-; exact Hl | apply (H i r0 Hi)].
      * intros H i r0 Hi. apply (H (S i) r0 Hi).
Qed.

(** X16.  In every state a program reaches, [Submit] discards the item (the
    Distributor is left as it was, and [onFullyConsumed] is called for the
    item right after [onSubmit]) if no Reader is subscribed, and stores it at
    the end of the backlog, with the claims of the Readers waiting there, if
    one is: the backlog never grows while nobody is subscribed. *)
Theorem Submit_discards_iff_no_subscriber (options : list Options) (ops : list Op)
    (s : System) (item : T) :
  len ops < 2 ^ 63 -> exec (init options) ops = Some s ->
  (live_count (readers s) = 0 ->
   Submit item (world s) =
     with_calls (world s)
       (calls (world s)
        ++ pass CallSubmit (onSubmit (dist (world s))) item
        ++ pass CallFullyConsumed (onFullyConsumed (dist (world s))) item)) /\
  (live_count (readers s) <> 0 ->
   buf (dist (Submit item (world s)))
     = buf (dist (world s)) ++ [mkEventInfo (nextRefcount (dist (world s))) item] /\
   nextRefcount (dist (Submit item (world s))) = 0 /\
   fullyConsumed_calls (calls (Submit item (world s)))
     = fullyConsumed_calls (calls (world s))).
Proof.
  intros Hn He. destruct (Inv_reachable options ops s Hn He) as [HC Hh].
  split.
  - intros Hz0. pose proof (proj1 (live_count_zero (readers s)) Hz0) as Hz.
    apply Submit_discard.
    + destruct (buf (dist (world s))) as [|e l] eqn:Hb; [reflexivity|]. exfalso.
      assert (H0 : buf (dist (world s)) !! 0%nat = Some e) by (rewrite Hb; reflexivity).
      apply (Hh e); [rewrite Hb; reflexivity|].
      rewrite (cnt_refcount _ _ _ HC 0%nat e H0).
      apply claims_none. intros i r Hi Hl. rewrite (Hz i r Hi) in Hl. discriminate.
    + rewrite (cnt_next _ _ _ HC).
      apply claims_none. intros i r Hi Hl. rewrite (Hz i r Hi) in Hl. discriminate.
  - intros Hnz.
    assert (Happ : (len (buf (dist (world s))) =? 0)
                   && (nextRefcount (dist (world s)) =? 0) = false).
    { apply andb_false_iff.
      destruct (Z.eqb_spec (len (buf (dist (world s)))) 0) as [Hz|Hz];
        [|left; reflexivity].
      right. apply Z.eqb_neq. intros Hx. apply Hnz.
      pose proof (total_claims_from _ (nextRefcount (dist (world s)))
                    (basePosition (dist (world s))) (readers s)
                    (cnt_refcount _ _ _ HC)) as Ht.
      pose proof (claims_from_all (basePosition (dist (world s)))
                    (length (buf (dist (world s)))) (readers s)
                    (cnt_position _ _ _ HC)) as Ha.
      apply len_zero in Hz. rewrite Hz in Ha. cbn [length claims_from] in Ha.
      rewrite <- Ha.
      pose proof (cnt_next _ _ _ HC) as Hnx. rewrite Hz in Hnx.
      unfold len in Hnx. cbn [length] in Hnx. lia. }
    rewrite (Submit_append item _ Happ). cbn [dist buf nextRefcount calls].
    split; [reflexivity|]. split; [reflexivity|].
    rewrite !fullyConsumed_calls_app, fullyConsumed_calls_pass_submit,
      fullyConsumed_calls_pass_size.
    rewrite !app_nil_r. reflexivity.
Qed.

(** ** What the missing position update does *)

Lemma EventReader_Consume_eq (r : EventReader) (w : World) :
  EventReader_Consume r w =
    match Consume r w with
    | Done (item, _) w1 => Done (item, r) w1
    | Panic w1 => Panic w1
    end.
Proof.
  unfold EventReader_Consume, Consume.
  destruct (d r); [reflexivity|].
  cbn zeta.
  destruct (index (buf (dist w)) (sub64 (position r) (basePosition (dist w))));
    [|reflexivity].
  rewrite EventDistributor_cleanupOldEvents_eq. reflexivity.
Qed.

Lemma trimmed_same_len (w : World) (k : nat) :
  (k <= length (buf (dist w)))%nat ->
  len (buf (dist (trimmed w k))) = len (buf (dist w)) -> trimmed w k = w.
Proof.
  destruct k as [|k]; [reflexivity|].
  cbn [trimmed dist buf with_buf with_basePosition]. unfold len.
  rewrite length_drop. lia.
Qed.

(** X17.  [EventReader.Consume] hands back the Reader as it got it.  So when
    the call trimmed nothing (the backlog has kept its length), the same
    EventReader is still ready and its next [Consume] returns the very same
    item again. *)
Theorem EventReader_Consume_repeats (r r1 : EventReader) (w w1 : World) (item : T) :
  EventReader_Consume r w = Done (item, r1) w1 ->
  r1 = r /\
  (len (buf (dist w1)) = len (buf (dist w)) ->
   EventReader_WaitChan r w1 = Done closedChannel w1 /\
   exists w2, EventReader_Consume r w1 = Done (item, r) w2).
Proof.
  intros H. rewrite EventReader_Consume_eq in H.
  destruct (Consume r w) as [[it r'] w'|] eqn:Hc; [|discriminate].
  injection H as -> <- ->.
  apply Consume_inv in Hc as (Hd & e & Hix & -> & _ & ->).
  split; [reflexivity|]. intros Hlen.
  set (idx := sub64 (position r) (basePosition (dist w))) in *.
  rewrite cleanupOldEvents_spec in *.
  rewrite <- (claim_moved_len w idx) in Hlen.
  rewrite (trimmed_same_len _ _ (leading_zeros_le _) Hlen).
  destruct (claim_moved_slots w idx e Hix) as (Hb & Hl & Hs & _).
  pose proof (index_lt _ _ _ Hix) as Hr.
  split.
  - unfold EventReader_WaitChan. rewrite Hd, Hb. fold idx.
    rewrite claim_moved_len.
    destruct (Z.ltb_spec idx (len (buf (dist w)))); [reflexivity | lia].
  - rewrite EventReader_Consume_eq.
    rewrite (Consume_Done r (claim_moved w idx) Hd
               (mkEventInfo (add64 (refcount e) (-1)) (value e))).
    + eexists. reflexivity.
    + rewrite Hb. fold idx. apply index_Some. split; [lia | exact Hs].
Qed.

(** ** Wakeups over a whole program *)

Lemma is_closed_exec (c : chan) (ops : list Op) :
  forall s s1, exec s ops = Some s1 ->
  is_closed (chans (world s)) c = true -> is_closed (chans (world s1)) c = true.
Proof.
  induction ops as [|op ops IH]; intros s s1 He Hc; cbn [exec] in He.
  - injection He as <-. exact Hc.
  - destruct (step s op) as [[ret s0]|] eqn:Hs; [|discriminate].
    apply (IH _ _ He). apply (proj1 (is_closed_step _ _ _ _ Hs)). exact Hc.
Qed.

Lemma waiters_step (s s1 : System) (op : Op) (ret : Ret) (c : chan) :
  step s op = Some (ret, s1) -> (forall item, op <> OpSubmit item) ->
  waiters (dist (world s)) = Some c -> waiters (dist (world s1)) = Some c.
Proof.
  intros Hs Hn Hw. destruct op as [item| |i|i|i]; cbn [step] in Hs.
  - exfalso. apply (Hn item). reflexivity.
  - injection Hs as _ <-. exact Hw.
  - destruct (readers s !! i) as [r|]; [|discriminate].
    destruct (WaitChan r (world s)) as [c0 w1|] eqn:Hwc; [|discriminate].
    injection Hs as _ <-. cbn [world].
    apply WaitChan_inv in Hwc as (_ & [(_ & _ & ->)|[(_ & _ & ->)|(_ & Hx & _)]]);
      [exact Hw | exact Hw | congruence].
  - destruct (readers s !! i) as [r|]; [|discriminate].
    destruct (Consume r (world s)) as [[item r1] w1|] eqn:Hc; [|discriminate].
    injection Hs as _ <-. cbn [world].
    apply Consume_inv in Hc as (_ & e & _ & _ & _ & ->).
    rewrite cleanupOldEvents_spec, trimmed_waiters, claim_moved_waiters. exact Hw.
  - destruct (readers s !! i) as [r|]; [|discriminate].
    destruct (Unsubscribe r (world s)) as [r1 w1|] eqn:Hu; [|discriminate].
    injection Hs as _ <-. cbn [world].
    apply Unsubscribe_inv in Hu as (_ & _ & [(e & _ & ->)|(_ & ->)]).
    + cbn zeta.
      destruct (sub64 (position r) (basePosition (dist (world s))) =? 0).
      * rewrite cleanupOldEvents_spec, trimmed_waiters. exact Hw.
      * exact Hw.
    + exact Hw.
Qed.

Lemma Submit_appends_for_subscriber (n : Z) (s : System) (i : nat) (r : Reader) :
  n < 2 ^ 63 -> Inv n s -> readers s !! i = Some r -> live r = true ->
  (len (buf (dist (world s))) =? 0) && (nextRefcount (dist (world s)) =? 0) = false.
Proof.
  intros Hn [HC _] Hi Hl.
  destruct (Counted_index _ _ _ i r Hn HC Hi Hl) as [Hidx Hrange].
  apply andb_false_iff.
  destruct (Z.eqb_spec (len (buf (dist (world s)))) 0) as [Hz|Hz]; [|left; reflexivity].
  right. apply Z.eqb_neq.
  rewrite (cnt_next _ _ _ HC).
  replace (basePosition (dist (world s)) + len (buf (dist (world s))))
    with (position r) by lia.
  pose proof (claims_member _ _ _ Hi Hl). lia.
Qed.

Lemma wakeup_step (i : nat) (c : chan) (n : Z) (s s0 : System) (op : Op) (ret : Ret)
    (r : Reader) :
  n + 1 < 2 ^ 63 -> Inv n s -> chans_ok (world s) ->
  waiters (dist (world s)) = Some c -> readers s !! i = Some r ->
  step s op = Some (ret, s0) -> (forall item, op <> OpSubmit item) ->
  Inv (n + 1) s0 /\ chans_ok (world s0) /\ waiters (dist (world s0)) = Some c /\
  exists r0, readers s0 !! i = Some r0.
Proof.
  intros Hn HI Hok Hw Hi Hs Hno.
  split; [apply (Inv_step _ _ _ _ _ Hn HI Hs)|].
  split; [apply (chans_ok_step _ _ _ _ Hs Hok)|].
  split; [apply (waiters_step _ _ _ _ c Hs Hno Hw)|].
  destruct (readers s0 !! i) as [r0|] eqn:Hi0; [exists r0; reflexivity|].
  destruct (absent_step i _ _ _ _ Hs Hi0) as (Hnone & _). congruence.
Qed.

Lemma wakeup_run (i : nat) (c : chan) (ops : list Op) :
  forall (n : Z) (s s1 : System) (r : Reader),
    n + len ops < 2 ^ 63 -> Inv n s -> chans_ok (world s) ->
    waiters (dist (world s)) = Some c -> readers s !! i = Some r ->
    exec s ops = Some s1 -> subscribed i s1 = true ->
    (submitted ops = [] /\ waiters (dist (world s1)) = Some c) \/
    (submitted ops <> [] /\ is_closed (chans (world s1)) c = true).
Proof.
  induction ops as [|op ops IH]; intros n s s1 r Hn HI Hok Hw Hi He Hsub.
  - cbn [exec] in He. injection He as <-. left. split; [reflexivity | exact Hw].
  - pose proof He as He'. cbn [exec] in He.
    destruct (step s op) as [[ret s0]|] eqn:Hs; [|discriminate].
    assert (Hlen : len (op :: ops) = 1 + len ops) by (unfold len; cbn [length]; lia).
    pose proof (len_nonneg ops) as Hl0.
    assert (Hl : live r = true).
    { destruct (live r) eqn:Hlr; [reflexivity|]. exfalso.
      destruct (dead_run i (op :: ops) s r Hi Hlr) as (_ & _ & Hd).
      rewrite (Hd s1 He') in Hsub. discriminate. }
    assert (Hother : (forall item, op <> OpSubmit item) ->
              (submitted (op :: ops) = [] /\ waiters (dist (world s1)) = Some c) \/
              (submitted (op :: ops) <> [] /\ is_closed (chans (world s1)) c = true)).
    { intros Hno.
      destruct (wakeup_step i c n s s0 op ret r ltac:(lia) HI Hok Hw Hi Hs Hno)
        as (HI0 & Hok0 & Hw0 & r0 & Hi0).
      assert (Hsame : submitted (op :: ops) = submitted ops).
      { destruct op; try reflexivity. exfalso. apply (Hno item). reflexivity. }
      rewrite Hsame.
      apply (IH (n + 1) s0 s1 r0); try assumption. lia. }
    destruct op as [item| |j|j|j]; try (apply Hother; discriminate).
    right. split; [discriminate|].
    apply (is_closed_exec c ops _ _ He).
    pose proof Hs as Hs'. cbn [step] in Hs'. injection Hs' as _ <-. cbn [world].
    apply (Submit_wakes item (world s) c Hok Hw).
    apply (Submit_appends_for_subscriber n s i r ltac:(lia) HI Hi Hl).
Qed.

(** X18.  A wakeup is neither lost nor spurious.  Let a subscribed Reader
    with nothing to read obtain a channel from [WaitChan]; whatever the
    clients call afterwards, as long as that Reader is still subscribed the
    channel is closed if and only if [Submit] has been called since. *)
Theorem wakeup_iff_Submit (options : list Options) (before after : list Op)
    (s s1 : System) (i : nat) (r : Reader) (c : chan) (w2 : World) :
  len before + 1 + len after < 2 ^ 63 ->
  exec (init options) before = Some s ->
  readers s !! i = Some r -> live r = true -> unready r (world s) ->
  WaitChan r (world s) = Done c w2 ->
  exec (mkSystem w2 (readers s)) after = Some s1 ->
  subscribed i s1 = true ->
  (is_closed (chans (world s1)) c = true <-> submitted after <> []).
Proof.
  intros Hn He Hi Hl Hu Hw He1 Hsub.
  pose proof (len_nonneg before) as Hb0. pose proof (len_nonneg after) as Ha0.
  pose proof (Inv_reachable options before s ltac:(lia) He) as HI.
  pose proof (chans_ok_exec before _ _ He (chans_ok_init options)) as Hok.
  pose proof (Inv_WaitChan _ _ _ _ _ Hw HI) as HI2.
  pose proof (chans_ok_WaitChan _ _ _ _ Hw Hok) as Hok2.
  assert (Hw2 : waiters (dist w2) = Some c).
  { apply WaitChan_inv in Hw as (_ & [(Hlt & _ & _)|[(_ & Hx & ->)|(_ & _ & -> & ->)]]).
    - unfold unready in Hu. lia.
    - exact Hx.
    - reflexivity. }
  pose proof (chans_ok_exec after _ _ He1 Hok2) as [_ Hopen].
  destruct (wakeup_run i c after (len before + 1) (mkSystem w2 (readers s)) s1 r
              ltac:(lia) HI2 Hok2 Hw2 Hi He1 Hsub) as [[Hnone Hstill]|[Hsome Hclosed]].
  - destruct (Hopen c Hstill) as [_ Hc]. rewrite Hc, Hnone.
    split; [discriminate | intros H; contradiction].
  - split; [intros _; exact Hsome | intros _; exact Hclosed].
Qed.

(** ** The moment an event is released *)

Lemma leading_zeros_pos (l : list eventInfo) (e : eventInfo) :
  l !! 0%nat = Some e -> refcount e = 0 -> exists k, leading_zeros l = S k.
Proof.
  destruct l as [|x l]; [discriminate|]. intros [= ->] Hz.
  simpl. rewrite Hz. simpl. eauto.
Qed.

Lemma trimmed_head_released (w : World) (k : nat) (e : eventInfo) :
  buf (dist w) !! 0%nat = Some e -> (S k <= length (buf (dist w)))%nat ->
  (exists rest,
     calls (trimmed w (S k)) =
       calls w ++ pass CallFullyConsumed (onFullyConsumed (dist w)) (value e) ++ rest) /\
  len (buf (dist (trimmed w (S k)))) < len (buf (dist w)).
Proof.
  intros H0 Hk. split.
  - cbn [trimmed calls].
    destruct (buf (dist w)) as [|x l] eqn:Hb; [discriminate|]. injection H0 as ->.
    simpl. eexists. rewrite <- app_assoc. reflexivity.
  - cbn [trimmed dist buf with_buf with_basePosition]. unfold len.
    rewrite length_drop. lia.
Qed.

Lemma decrement_zero (n : Z) : int64_range n -> (add64 n (-1) = 0 <-> n = 1).
Proof.
  intros Hr. split.
  - intros H. destruct (Z.eq_dec n (- 2 ^ 63)) as [->|Hn]; [discriminate H|].
    rewrite add64_id in H by (unfold int64_range in *; lia). lia.
  - intros ->. reflexivity.
Qed.

Lemma head_release (w mid : World) (e : eventInfo) :
  int64_range (refcount e) ->
  buf (dist mid) !! 0%nat = Some (mkEventInfo (add64 (refcount e) (-1)) (value e)) ->
  calls mid = calls w -> onFullyConsumed (dist mid) = onFullyConsumed (dist w) ->
  len (buf (dist mid)) = len (buf (dist w)) ->
  map value (buf (dist mid)) = map value (buf (dist w)) ->
  basePosition (dist mid) = basePosition (dist w) ->
  (refcount e = 1 ->
   (exists rest,
      calls (cleanupOldEvents mid) =
        calls w ++ pass CallFullyConsumed (onFullyConsumed (dist w)) (value e) ++ rest) /\
   len (buf (dist (cleanupOldEvents mid))) < len (buf (dist w))) /\
  (refcount e <> 1 ->
   calls (cleanupOldEvents mid) = calls w /\
   map value (buf (dist (cleanupOldEvents mid))) = map value (buf (dist w)) /\
   basePosition (dist (cleanupOldEvents mid)) = basePosition (dist w)).
Proof.
  intros Hr H0 Hc Hf Hl Hv Hb. rewrite cleanupOldEvents_spec. split.
  - intros H1.
    destruct (leading_zeros_pos _ _ H0) as [k Hk];
      [cbn [refcount]; apply decrement_zero; assumption|].
    pose proof (leading_zeros_le (buf (dist mid))) as Hle. rewrite Hk in *.
    destruct (trimmed_head_released mid k _ H0 Hle) as [[rest Hrest] Hlt].
    cbn [value] in Hrest. rewrite Hc, Hf in Hrest.
    split; [exists rest; exact Hrest | lia].
  - intros H1.
    assert (Hk : leading_zeros (buf (dist mid)) = 0%nat).
    { apply leading_zeros_head. intros e0 He0. rewrite H0 in He0.
      injection He0 as <-. cbn [refcount]. rewrite decrement_zero; assumption. }
    rewrite Hk. cbn [trimmed]. auto.
Qed.

(** X19.  [Consume] by a Reader standing on the first slot of the backlog
    releases that event exactly when the Reader held the last claim on it: if
    the refcount of the slot was 1, the slot is dropped and the
    [onFullyConsumed] callbacks are called with its value before anything
    else; if other claims remain, the call drops nothing and calls no
    callback. *)
Theorem Consume_releases_at_last_claim (r : Reader) (w : World) (e : eventInfo) :
  d r = Ptr -> sub64 (position r) (basePosition (dist w)) = 0 ->
  buf (dist w) !! 0%nat = Some e -> int64_range (refcount e) ->
  exists w1 : World,
    Consume r w = Done (value e, mkReader Ptr (add64 (position r) 1)) w1 /\
    (refcount e = 1 ->
     (exists rest,
        calls w1 =
          calls w ++ pass CallFullyConsumed (onFullyConsumed (dist w)) (value e) ++ rest) /\
     len (buf (dist w1)) < len (buf (dist w))) /\
    (refcount e <> 1 ->
     calls w1 = calls w /\
     map value (buf (dist w1)) = map value (buf (dist w)) /\
     basePosition (dist w1) = basePosition (dist w)).
Proof.
  intros Hd Hidx H0 Hr.
  assert (Hix : index (buf (dist w)) (sub64 (position r) (basePosition (dist w)))
                = Some e) by (rewrite Hidx; exact H0).
  eexists. split; [apply (Consume_Done r w Hd e Hix)|].
  rewrite Hidx in *.
  destruct (claim_moved_slots w 0 e Hix) as (Hb & _ & Hs & _).
  apply head_release; try assumption.
  - apply claim_moved_calls.
  - apply claim_moved_callbacks.
  - apply claim_moved_len.
  - apply claim_moved_values.
Qed.

(** X20.  Likewise for [Unsubscribe] by a Reader standing on the first slot:
    the event is dropped and reported to [onFullyConsumed] exactly when that
    Reader held the last claim on it; otherwise nothing is dropped and no
    callback is called.  [nextRefcount] is not touched either way. *)
Theorem Unsubscribe_releases_at_last_claim (r : Reader) (w : World) (e : eventInfo) :
  d r = Ptr -> sub64 (position r) (basePosition (dist w)) = 0 ->
  buf (dist w) !! 0%nat = Some e -> int64_range (refcount e) ->
  exists w1 : World,
    Unsubscribe r w = Done (mkReader Nil (position r)) w1 /\
    nextRefcount (dist w1) = nextRefcount (dist w) /\
    (refcount e = 1 ->
     (exists rest,
        calls w1 =
          calls w ++ pass CallFullyConsumed (onFullyConsumed (dist w)) (value e) ++ rest) /\
     len (buf (dist w1)) < len (buf (dist w))) /\
    (refcount e <> 1 ->
     calls w1 = calls w /\
     map value (buf (dist w1)) = map value (buf (dist w)) /\
     basePosition (dist w1) = basePosition (dist w)).
Proof.
  intros Hd Hidx H0 Hr.
  assert (Hix : index (buf (dist w)) 0 = Some e) by exact H0.
  pose proof (index_lt _ _ _ Hix) as Hlt.
  unfold Unsubscribe. rewrite Hd, Hidx, Hix. cbn [Z.eqb].
  destruct (Z.ltb_spec 0 (len (buf (dist w)))) as [_|Hge]; [|lia].
  eexists. split; [reflexivity|].
  split.
  - rewrite cleanupOldEvents_spec, trimmed_nextRefcount. reflexivity.
  - apply head_release; try assumption; cbn [dist with_dist buf with_buf calls
                                             onFullyConsumed basePosition].
    + apply (bump_lookup_eq _ 0 (-1) e Hix).
    + reflexivity.
    + reflexivity.
    + apply len_bump.
    + apply bump_value.
    + reflexivity.
Qed.

End Model.

Arguments Done {T A} a w.
Arguments Panic {T A} w.

(** * The properties at sample inputs *)

Lemma Consume_in_order_witness :
  (exists mid : World,
     Consume (mkReader Ptr 5) (stale_world 10 20)
       = Done (20, mkReader Ptr 6) (cleanupOldEvents mid) /\
     nextRefcount (dist mid) = 1) /\
  consumed_by 0 (init []) (two_readers 10 20)
    `prefix_of` submitted_to 0 (init []) (two_readers 10 20).
Proof.
  destruct (@Consume_in_order Z) as [H1 H2]. split.
  - assert (Hi : index (buf (dist (stale_world 10 20)))
                   (sub64 (position (mkReader Ptr 5))
                      (basePosition (dist (stale_world 10 20))))
                 = Some (mkEventInfo 1 20)) by (vm_compute; reflexivity).
    destruct (H1 (mkReader Ptr 5) (stale_world 10 20) (mkEventInfo 1 20)
                eq_refl Hi) as (mid & Hc & _ & _ & _ & _ & _ & Hn).
    exists mid. split; [exact Hc | apply Hn; vm_compute; reflexivity].
  - eassert (He : exec (init []) (two_readers 10 20) = Some _)
      by (vm_compute; reflexivity).
    assert (Hn : len (two_readers 10 20) < 2 ^ 63) by (vm_compute; reflexivity).
    exact (proj1 (H2 [] (two_readers 10 20) _ 0%nat Hn He)).
Defined.


Lemma Submit_without_audience_witness :
  dist (Submit 10 (world (init [OnSubmit (mkOptions []) 1%nat])))
    = dist (world (init [OnSubmit (mkOptions []) 1%nat])).
Proof.
  assert (Hb : buf (dist (world (@init Z [OnSubmit (mkOptions []) 1%nat]))) = [])
    by (vm_compute; reflexivity).
  assert (Hn : nextRefcount (dist (world (@init Z [OnSubmit (mkOptions []) 1%nat]))) = 0)
    by (vm_compute; reflexivity).
  destruct (@Submit_without_audience Z 10 _ Hb Hn) as (new & _ & _ & _ & Hd & _).
  exact Hd.
Defined.

Lemma cleanupOldEvents_trims_witness :
  basePosition (dist (cleanupOldEvents (stale_world 10 20))) = 5.
Proof.
  destruct (@cleanupOldEvents_trims Z (stale_world 10 20))
    as (k & _ & Hz & Hk & _ & _ & Hb & _).
  assert (H1 : int64_range (basePosition (dist (stale_world 10 20))))
    by (vm_compute; split; [discriminate | reflexivity]).
  assert (H2 : int64_range (basePosition (dist (stale_world 10 20))
                            + len (buf (dist (stale_world 10 20)))))
    by (vm_compute; split; [discriminate | reflexivity]).
  specialize (Hb H1 H2). rewrite Hb.
  destruct k as [|[|k]].
  - exfalso. apply (Hk (mkEventInfo 0 10)); reflexivity.
  - reflexivity.
  - exfalso. specialize (Hz 1%nat (mkEventInfo 1 20) ltac:(lia) eq_refl).
    discriminate Hz.
Defined.

Lemma refcounts_count_readers_witness :
  exists s : System,
    exec (init []) (two_readers 10 20) = Some s /\
    nextRefcount (dist (world s))
      = claims (basePosition (dist (world s)) + len (buf (dist (world s)))) (readers s).
Proof.
  eassert (He : exec (init []) (two_readers 10 20) = Some _)
    by (vm_compute; reflexivity).
  assert (Hn : len (two_readers 10 20) < 2 ^ 63) by (vm_compute; reflexivity).
  eexists. split; [exact He|].
  exact (proj1 (@refcounts_count_readers Z [] _ _ Hn He)).
Defined.

Lemma WaitChan_broadcast_witness :
  exists (s : System) (c : chan) (w2 : World),
    exec (init []) (@two_waiting Z) = Some s /\
    WaitChan (mkReader Ptr 0) (world s) = Done c w2 /\
    WaitChan (mkReader Ptr 0) w2 = Done c w2 /\
    is_closed (chans w2) c = false.
Proof.
  eassert (He : exec (init []) (@two_waiting Z) = Some _)
    by (vm_compute; reflexivity).
  lazymatch type of He with
  | _ = Some ?s0 =>
      assert (Hi : readers s0 !! 0%nat = Some (mkReader Ptr 0))
        by (vm_compute; reflexivity);
      assert (Hj : readers s0 !! 1%nat = Some (mkReader Ptr 0))
        by (vm_compute; reflexivity);
      assert (Hu : unready (mkReader Ptr 0) (world s0))
        by (vm_compute; discriminate)
  end.
  destruct (@WaitChan_broadcast Z [] two_waiting _ 0%nat 1%nat
              (mkReader Ptr 0) (mkReader Ptr 0) 10 He Hi Hj eq_refl eq_refl
              Hu Hu) as (c & w2 & H1 & H2 & H3 & _).
  eexists _, c, w2. split; [exact He|]. split; [exact H1|]. split; [exact H2 | exact H3].
Defined.

Lemma bufsize_reports_witness :
  exists s1 : System,
    step (mkSystem (stale_world 10 20) [mkReader Ptr 5]) (OpConsume 0)
      = Some (RetItem 20, s1) /\
    bufsize_report (stale_world 10 20) (world s1).
Proof.
  eassert (Hs : step (mkSystem (stale_world 10 20) [mkReader Ptr 5]) (OpConsume 0)
                = Some (RetItem 20, _)) by (vm_compute; reflexivity).
  destruct (@bufsize_reports Z) as (_ & _ & H & _).
  eexists. split; [exact Hs | exact (H _ _ _ _ Hs)].
Defined.

Lemma use_after_Unsubscribe_panics_witness :
  exists (r1 : Reader) (w1 : World),
    Unsubscribe (mkReader Ptr 5) (stale_world 10 20) = Done r1 w1 /\
    Consume r1 w1 = Panic w1.
Proof.
  eassert (Hu : Unsubscribe (mkReader Ptr 5) (stale_world 10 20) = Done _ _)
    by (vm_compute; reflexivity).
  destruct (@use_after_Unsubscribe_panics Z _ _ _ _ Hu) as [_ H].
  eexists _, _. split; [exact Hu | exact (proj1 (proj2 (H _)))].
Defined.

Lemma head_is_claimed_witness :
  exists s : System,
    exec (init []) (two_readers 10 20) = Some s /\
    cleanupOldEvents (world s) = world s.
Proof.
  eassert (He : exec (init []) (two_readers 10 20) = Some _)
    by (vm_compute; reflexivity).
  assert (Hn : len (two_readers 10 20) + 1 < 2 ^ 63) by (vm_compute; reflexivity).
  eexists. split; [exact He|].
  exact (proj1 (proj2 (@head_is_claimed Z [] _ _ Hn He))).
Defined.

(** * The further properties at sample inputs *)

Lemma callbacks_never_change_witness :
  exists s : System,
    exec (init sample_options) (two_readers 10 20) = Some s /\
    onSubmit (dist (world s)) = [1%nat].
Proof.
  eassert (He : exec (init sample_options) (two_readers 10 20) = Some _)
    by (vm_compute; reflexivity).
  eexists. split; [exact He|].
  exact (proj1 (proj2 (@callbacks_never_change Z _ _ _ He))).
Defined.

Lemma channels_closed_only_by_Submit_witness :
  exists s1 : System,
    step (mkSystem (held_world 10 20) [mkReader Ptr 4]) (OpConsume 0)
      = Some (RetItem 10, s1) /\
    is_closed (chans (world s1)) closedChannel = true.
Proof.
  eassert (Hs : step (mkSystem (held_world 10 20) [mkReader Ptr 4]) (OpConsume 0)
                = Some (RetItem 10, _)) by (vm_compute; reflexivity).
  eexists. split; [exact Hs|].
  apply (proj1 (@channels_closed_only_by_Submit Z _ _ _ _ Hs)).
  vm_compute; reflexivity.
Defined.

Lemma onSubmit_once_per_Submit_witness :
  exists s : System,
    exec (init sample_options) (two_readers 10 20) = Some s /\
    submit_calls (calls (world s)) = [CallSubmit 1%nat 10; CallSubmit 1%nat 20].
Proof.
  eassert (He : exec (init sample_options) (two_readers 10 20) = Some _)
    by (vm_compute; reflexivity).
  eexists. split; [exact He|].
  exact (@onSubmit_once_per_Submit Z _ _ _ He).
Defined.

Lemma reported_size_is_current_witness :
  exists s : System,
    exec (init sample_options) (two_readers 10 20) = Some s /\
    reported_size (calls (world s)) = len (buf (dist (world s))).
Proof.
  eassert (He : exec (init sample_options) (two_readers 10 20) = Some _)
    by (vm_compute; reflexivity).
  assert (Hne : registered pick_onBufsizeChange sample_options <> [])
    by (vm_compute; discriminate).
  eexists. split; [exact He|].
  exact (@reported_size_is_current Z _ _ _ Hne He).
Defined.

Lemma WaitChan_closed_iff_ready_witness :
  exists (s : System) (c : chan) (w1 : World),
    exec (init []) (@two_waiting Z) = Some s /\
    WaitChan (mkReader Ptr 0) (world s) = Done c w1 /\
    calls w1 = calls (world s).
Proof.
  eassert (He : exec (init []) (@two_waiting Z) = Some _)
    by (vm_compute; reflexivity).
  destruct (@WaitChan_closed_iff_ready Z [] _ _ (mkReader Ptr 0) He eq_refl)
    as (c & w1 & Hw & _ & _ & _ & _ & Hc).
  eexists _, c, w1. split; [exact He|]. split; [exact Hw | exact Hc].
Defined.

Lemma Subscribe_starts_at_the_tail_witness :
  exists s : System,
    exec (init []) (two_readers 10 20) = Some s /\
    Consume (fst (Subscribe (world s))) (snd (Subscribe (world s)))
      = Panic (snd (Subscribe (world s))).
Proof.
  eassert (He : exec (init []) (two_readers 10 20) = Some _)
    by (vm_compute; reflexivity).
  assert (Hn : len (two_readers 10 20) + 1 < 2 ^ 63) by (vm_compute; reflexivity).
  eexists. split; [exact He|].
  exact (proj1 (proj2 (proj2 (proj2
           (@Subscribe_starts_at_the_tail Z [] _ _ Hn He))))).
Defined.

Lemma Subscribe_Unsubscribe_restores_witness :
  exists (s : System) (r : Reader),
    exec (init []) (two_readers 10 20) = Some s /\
    Unsubscribe (fst (Subscribe (world s))) (snd (Subscribe (world s)))
      = Done r (world s).
Proof.
  eassert (He : exec (init []) (two_readers 10 20) = Some _)
    by (vm_compute; reflexivity).
  assert (Hn : len (two_readers 10 20) + 1 < 2 ^ 63) by (vm_compute; reflexivity).
  eexists _, _. split; [exact He|].
  exact (@Subscribe_Unsubscribe_restores Z [] _ _ Hn He).
Defined.

Lemma backlog_is_held_by_a_reader_witness :
  exists s : System,
    exec (init []) (two_readers 10 20) = Some s /\
    ((forall i r, readers s !! i = Some r -> live r = false) ->
     buf (dist (world s)) = []).
Proof.
  eassert (He : exec (init []) (two_readers 10 20) = Some _)
    by (vm_compute; reflexivity).
  assert (Hn : len (two_readers 10 20) < 2 ^ 63) by (vm_compute; reflexivity).
  eexists. split; [exact He|].
  exact (proj2 (@backlog_is_held_by_a_reader Z [] _ _ Hn He)).
Defined.

Lemma Submit_reaches_every_subscriber_witness :
  exists s : System,
    exec (init []) (two_readers 10 20) = Some s /\
    WaitChan (mkReader Ptr 2) (Submit 30 (world s))
      = Done closedChannel (Submit 30 (world s)).
Proof.
  eassert (He : exec (init []) (two_readers 10 20) = Some _)
    by (vm_compute; reflexivity).
  assert (Hn : len (two_readers 10 20) < 2 ^ 63) by (vm_compute; reflexivity).
  lazymatch type of He with
  | _ = Some ?s0 =>
      assert (Hi : readers s0 !! 1%nat = Some (mkReader Ptr 2))
        by (vm_compute; reflexivity)
  end.
  eexists. split; [exact He|].
  exact (proj1 (proj2 (@Submit_reaches_every_subscriber Z [] _ _ 1%nat
                         (mkReader Ptr 2) 30 Hn He Hi eq_refl))).
Defined.

Lemma subscribed_Reader_is_in_range_witness :
  exists s : System,
    exec (init []) (two_readers 10 20) = Some s /\
    Consume (mkReader Ptr 2) (world s) = Panic (world s).
Proof.
  eassert (He : exec (init []) (two_readers 10 20) = Some _)
    by (vm_compute; reflexivity).
  assert (Hn : len (two_readers 10 20) < 2 ^ 63) by (vm_compute; reflexivity).
  lazymatch type of He with
  | _ = Some ?s0 =>
      assert (Hi : readers s0 !! 1%nat = Some (mkReader Ptr 2))
        by (vm_compute; reflexivity);
      assert (Hu : unready (mkReader Ptr 2) (world s0))
        by (vm_compute; discriminate)
  end.
  eexists. split; [exact He|].
  exact (proj1 (proj2 (proj2 (@subscribed_Reader_is_in_range Z [] _ _ 1%nat
                                (mkReader Ptr 2) Hn He Hi eq_refl))) Hu).
Defined.

Lemma one_claim_per_Reader_witness :
  exists s : System,
    exec (init []) (two_readers 10 20) = Some s /\
    total_claims (dist (world s)) = live_count (readers s).
Proof.
  eassert (He : exec (init []) (two_readers 10 20) = Some _)
    by (vm_compute; reflexivity).
  assert (Hn : len (two_readers 10 20) < 2 ^ 63) by (vm_compute; reflexivity).
  eexists. split; [exact He|].
  exact (proj1 (@one_claim_per_Reader Z [] _ _ Hn He)).
Defined.

Lemma Submit_discards_iff_no_subscriber_witness :
  exists s : System,
    exec (init []) (two_readers 10 20) = Some s /\
    nextRefcount (dist (Submit 30 (world s))) = 0.
Proof.
  eassert (He : exec (init []) (two_readers 10 20) = Some _)
    by (vm_compute; reflexivity).
  assert (Hn : len (two_readers 10 20) < 2 ^ 63) by (vm_compute; reflexivity).
  lazymatch type of He with
  | _ = Some ?s0 =>
      assert (Hl : live_count (readers s0) <> 0) by (vm_compute; discriminate)
  end.
  eexists. split; [exact He|].
  exact (proj1 (proj2 (proj2 (@Submit_discards_iff_no_subscriber Z [] _ _ 30 Hn He)
                         Hl))).
Defined.

Lemma EventReader_Consume_repeats_witness :
  exists w1 w2 : World,
    EventReader_Consume (mkReader Ptr 5) (held_world 10 20)
      = Done (20, mkReader Ptr 5) w1 /\
    EventReader_Consume (mkReader Ptr 5) w1 = Done (20, mkReader Ptr 5) w2.
Proof.
  eassert (Hc : EventReader_Consume (mkReader Ptr 5) (held_world 10 20)
                = Done (20, mkReader Ptr 5) _) by (vm_compute; reflexivity).
  lazymatch type of Hc with
  | _ = Done _ ?w0 =>
      assert (Hl : len (buf (dist w0)) = len (buf (dist (held_world 10 20))))
        by (vm_compute; reflexivity)
  end.
  destruct (proj2 (proj2 (@EventReader_Consume_repeats Z _ _ _ _ _ Hc) Hl)) as [w2 H2].
  eexists _, w2. split; [exact Hc | exact H2].
Defined.

Lemma wakeup_iff_Submit_witness :
  exists (s s1 : System) (c : chan) (w2 : World),
    exec (init []) (@two_waiting Z) = Some s /\
    WaitChan (mkReader Ptr 0) (world s) = Done c w2 /\
    exec (mkSystem w2 (readers s)) [OpSubmit 10; OpConsume 1%nat] = Some s1 /\
    is_closed (chans (world s1)) c = true.
Proof.
  eassert (He : exec (init []) (@two_waiting Z) = Some _)
    by (vm_compute; reflexivity).
  lazymatch type of He with
  | _ = Some ?s0 =>
      assert (Hi : readers s0 !! 0%nat = Some (mkReader Ptr 0))
        by (vm_compute; reflexivity);
      assert (Hu : unready (mkReader Ptr 0) (world s0))
        by (vm_compute; discriminate);
      eassert (Hw : WaitChan (mkReader Ptr 0) (world s0) = Done _ _)
        by (vm_compute; reflexivity)
  end.
  lazymatch type of Hw with
  | _ = Done _ ?w0 =>
      lazymatch type of He with
      | _ = Some ?s0 =>
          eassert (He1 : exec (mkSystem w0 (readers s0)) [OpSubmit 10; OpConsume 1%nat]
                         = Some _) by (vm_compute; reflexivity)
      end
  end.
  lazymatch type of He1 with
  | _ = Some ?s2 =>
      assert (Hsub : subscribed 0 s2 = true) by (vm_compute; reflexivity)
  end.
  assert (Hn : len (@two_waiting Z) + 1 + len [@OpSubmit Z 10; OpConsume 1%nat] < 2 ^ 63)
    by (vm_compute; reflexivity).
  assert (Hs : submitted [OpSubmit 10; OpConsume 1%nat] <> [])
    by (vm_compute; discriminate).
  eexists _, _, _, _. split; [exact He|]. split; [exact Hw|]. split; [exact He1|].
  exact (proj2 (@wakeup_iff_Submit Z [] _ _ _ _ 0%nat _ _ _ Hn He Hi eq_refl Hu Hw
                  He1 Hsub) Hs).
Defined.

Lemma Consume_releases_at_last_claim_witness :
  exists w1 : World,
    Consume (mkReader Ptr 4) (held_world 10 20) = Done (10, mkReader Ptr 5) w1 /\
    len (buf (dist w1)) < len (buf (dist (held_world 10 20))).
Proof.
  assert (Hi : sub64 (position (mkReader Ptr 4))
                 (basePosition (dist (held_world 10 20))) = 0)
    by (vm_compute; reflexivity).
  assert (Hr : int64_range (refcount (mkEventInfo 1 10)))
    by (vm_compute; split; [discriminate | reflexivity]).
  destruct (@Consume_releases_at_last_claim Z (mkReader Ptr 4) (held_world 10 20)
              (mkEventInfo 1 10) eq_refl Hi eq_refl Hr) as (w1 & Hc & H1 & _).
  exists w1. split; [exact Hc | exact (proj2 (H1 eq_refl))].
Defined.

Lemma Unsubscribe_releases_at_last_claim_witness :
  exists w1 : World,
    Unsubscribe (mkReader Ptr 4) (held_world 10 20) = Done (mkReader Nil 4) w1 /\
    len (buf (dist w1)) < len (buf (dist (held_world 10 20))).
Proof.
  assert (Hi : sub64 (position (mkReader Ptr 4))
                 (basePosition (dist (held_world 10 20))) = 0)
    by (vm_compute; reflexivity).
  assert (Hr : int64_range (refcount (mkEventInfo 1 10)))
    by (vm_compute; split; [discriminate | reflexivity]).
  destruct (@Unsubscribe_releases_at_last_claim Z (mkReader Ptr 4) (held_world 10 20)
              (mkEventInfo 1 10) eq_refl Hi eq_refl Hr) as (w1 & Hc & _ & H1 & _).
  exists w1. split; [exact Hc | exact (proj2 (H1 eq_refl))].
Defined.
